(** * Persona creator: the extraction route

    A shallow embedding of [app/api/extract/route.ts] (the scoped
    retriever, the response parser, the insight normalizer and the
    request handler that ties them together) and of the older copy of
    the same route, with the properties of the specification stated
    and settled against it.

    Conventions.
    - A JavaScript string is its sequence of UTF-16 code units.
    - A JavaScript value is a tree ([value]); the only values the route
      inspects are the ones [JSON.parse] builds, plus [undefined] for
      absent properties.
    - An expression that can throw is a computation in [outcome].
    - The engine's Number type, its rendering [Number::toString], its
      truthiness and [JSON.parse] are taken as an interface
      ([Engine]); a reference instance over the integers is given for
      running examples. *)

From Stdlib Require Import List NArith ZArith String Ascii Bool Lia DecimalString.
Import ListNotations.

Set Implicit Arguments.
Set Warnings "-register-all".
Set Warnings "-automation".
Set Warnings "-notation-overridden".

(* ================================================================= *)
(** ** Strings *)

Module JSString.

Definition code_unit := N.
Definition jsstring := list code_unit.

(** ASCII literals. *)
Definition js (s : string) : jsstring :=
  map N_of_ascii (list_ascii_of_string s).

(** ASCII literals in which an apostrophe stands for a double quote. *)
Definition jsq (s : string) : jsstring :=
  map (fun c => if N.eqb c 39 then 34%N else c) (js s).

Definition LF : jsstring := [10%N].

Fixpoint jseqb (a b : jsstring) : bool :=
  match a, b with
  | [], [] => true
  | x :: a', y :: b' => N.eqb x y && jseqb a' b'
  | _, _ => false
  end.

(** ECMA-262 WhiteSpace and LineTerminator code points: the set that
    [String.prototype.trim] strips and that [\s] matches. *)
Definition isWhiteSpace (c : code_unit) : bool :=
  ((9 <=? c) && (c <=? 13) || (c =? 32) || (c =? 160) || (c =? 5760)
   || (8192 <=? c) && (c <=? 8202) || (c =? 8232) || (c =? 8233)
   || (c =? 8239) || (c =? 8287) || (c =? 12288) || (c =? 65279))%N.

Fixpoint trimStart (s : jsstring) : jsstring :=
  match s with
  | c :: s' => if isWhiteSpace c then trimStart s' else s
  | [] => []
  end.

Definition trimEnd (s : jsstring) : jsstring := rev (trimStart (rev s)).

(** [String.prototype.trim] *)
Definition trim (s : jsstring) : jsstring := trimEnd (trimStart s).

(** [s.startsWith(p)], returning what follows the prefix. *)
Fixpoint strip_prefix (p s : jsstring) : option jsstring :=
  match p, s with
  | [], _ => Some s
  | x :: p', y :: s' => if N.eqb x y then strip_prefix p' s' else None
  | _ :: _, [] => None
  end.

(** A string that does not begin with white space. *)
Definition starts_clean (s : jsstring) : Prop :=
  match s with
  | [] => True
  | c :: _ => isWhiteSpace c = false
  end.

End JSString.
Export JSString.

(* ================================================================= *)
(** ** Values, exceptions and coercions *)

Module JS.

Inductive value (number : Type) : Type :=
| VUndefined
| VNull
| VBool (b : bool)
| VNum (n : number)
| VStr (s : jsstring)
| VArr (items : list (value number))
| VObj (props : list (jsstring * value number)).

Arguments VUndefined {number}.
Arguments VNull {number}.
Arguments VBool {number} b.
Arguments VStr {number} s.

(** Induction on values that descends into array elements. *)
Definition value_array_ind {number : Type} (P : value number -> Prop)
    (HUndefined : P VUndefined) (HNull : P VNull)
    (HBool : forall b, P (VBool b)) (HNum : forall n, P (VNum n))
    (HStr : forall s, P (VStr s))
    (HArr : forall items, Forall P items -> P (VArr items))
    (HObj : forall props, P (VObj props)) : forall v, P v :=
  fix IH (v : value number) : P v :=
    match v with
    | VUndefined => HUndefined
    | VNull => HNull
    | VBool b => HBool b
    | VNum n => HNum n
    | VStr s => HStr s
    | VArr items =>
        HArr items
          ((fix all (l : list (value number)) : Forall P l :=
              match l with
              | [] => Forall_nil P
              | x :: l' => Forall_cons x (IH x) (all l')
              end) items)
    | VObj props => HObj props
    end.

(** Thrown values: an error's constructor name and message. *)
Inductive exn : Type :=
| TypeError (message : jsstring)
| SyntaxError (message : jsstring)
| ServiceError (message : jsstring).

Definition exn_message (e : exn) : jsstring :=
  match e with
  | TypeError m | SyntaxError m | ServiceError m => m
  end.

Inductive outcome (A : Type) : Type :=
| Return (a : A)
| Throw (e : exn).

Arguments Throw {A} e.

Definition bind {A B} (c : outcome A) (k : A -> outcome B) : outcome B :=
  match c with
  | Return a => k a
  | Throw e => Throw e
  end.

Notation "x <- c ;; k" := (bind c (fun x => k))
  (at level 61, c at next level, right associativity).

(** [xs.map(f)] for a callback that can throw: left to right, the first
    exception ends the traversal. *)
Fixpoint mapM {A B} (f : A -> outcome B) (xs : list A) : outcome (list B) :=
  match xs with
  | [] => Return []
  | x :: xs' => y <- f x ;; ys <- mapM f xs' ;; Return (y :: ys)
  end.

(** What the route needs of the engine's Number type and of
    [JSON.parse]. *)
Class Engine (number : Type) : Type := {
  (** Number::toString, radix 10 *)
  Number_toString : number -> jsstring;
  (** ToBoolean on a Number: false for +0, -0 and NaN *)
  Number_toBoolean : number -> bool;
  JSON_parse : jsstring -> outcome (value number)
}.

(** Own-property lookup in a plain object. *)
Fixpoint own_property {V} (key : jsstring) (props : list (jsstring * V))
  : option V :=
  match props with
  | [] => None
  | (k, v) :: rest => if jseqb k key then Some v else own_property key rest
  end.

Definition has_own {V} (key : jsstring) (props : list (jsstring * V)) : bool :=
  match own_property key props with Some _ => true | None => false end.

Definition cannot_convert : exn :=
  TypeError (js "Cannot convert object to primitive value").

Definition cannot_read : exn :=
  TypeError (js "Cannot read properties of null or undefined").

Section Coercions.
Context {number : Type} `{Engine number}.

(** [Array.prototype.join] with the default separator, over a rendering
    [element] of the elements: [undefined] and [null] elements render as
    the empty string. *)
Definition join (element : value number -> outcome jsstring)
  : list (value number) -> outcome jsstring :=
  fix go (l : list (value number)) : outcome jsstring :=
    match l with
    | [] => Return []
    | x :: rest =>
        s <- match x with
             | VUndefined | VNull => Return []
             | _ => element x
             end ;;
        match rest with
        | [] => Return s
        | _ :: _ => r <- go rest ;; Return (s ++ js "," ++ r)
        end
    end.

(** ToString (ECMA-262 7.1.17).  An Array goes through
    [Array.prototype.toString], that is [join].  A plain object goes
    through OrdinaryToPrimitive with hint string: [toString] is looked
    up first, then [valueOf]; a property that is not callable is
    skipped, and [Object.prototype.valueOf] returns the object itself,
    so an object carrying a data property named [toString] cannot be
    converted and a TypeError is thrown; any other plain object renders
    through [Object.prototype.toString]. *)
Fixpoint ToString (v : value number) : outcome jsstring :=
  match v with
  | VUndefined => Return (js "undefined")
  | VNull => Return (js "null")
  | VBool true => Return (js "true")
  | VBool false => Return (js "false")
  | VNum n => Return (Number_toString n)
  | VStr s => Return s
  | VArr items => join ToString items
  | VObj props =>
      if has_own (js "toString") props then Throw cannot_convert
      else Return (js "[object Object]")
  end.

(** ToBoolean (ECMA-262 7.1.2). *)
Definition ToBoolean (v : value number) : bool :=
  match v with
  | VUndefined | VNull => false
  | VBool b => b
  | VNum n => Number_toBoolean n
  | VStr s => match s with [] => false | _ :: _ => true end
  | VArr _ | VObj _ => true
  end.

(** [o?.key] for a key that no built-in prototype defines (every key the
    route reads is one): the own property of a plain object, and
    [undefined] on anything else. *)
Definition get_optional (o : value number) (key : jsstring) : value number :=
  match o with
  | VObj props =>
      match own_property key props with Some v => v | None => VUndefined end
  | _ => VUndefined
  end.

(** [o.key]: as [o?.key], except that reading a property of [null] or
    [undefined] throws. *)
Definition get (o : value number) (key : jsstring) : outcome (value number) :=
  match o with
  | VUndefined | VNull => Throw cannot_read
  | _ => Return (get_optional o key)
  end.

(** [a || b] *)
Definition or_else (a b : value number) : value number :=
  if ToBoolean a then a else b.

(** [a ?? b] *)
Definition coalesce (a b : value number) : value number :=
  match a with
  | VUndefined | VNull => b
  | _ => a
  end.

(** [v === s] for a String [s]; [SameValueZero] agrees with it there. *)
Definition strictly_equals_string (v : value number) (s : jsstring) : bool :=
  match v with
  | VStr t => jseqb t s
  | _ => false
  end.

(** [ids.includes(v)] on an array of Strings. *)
Definition includes (ids : list jsstring) (v : value number) : bool :=
  existsb (strictly_equals_string v) ids.

End Coercions.

End JS.
Export JS.

(* ================================================================= *)
(** ** The insight normalizer *)

Module Normalizer.

Definition nonempty (s : jsstring) : bool :=
  match s with [] => false | _ :: _ => true end.

Definition not_specified : jsstring := js "Not specified in posting".
Definition responsibilities_not_specified : jsstring :=
  js "Responsibilities not specified".

Record RequiredSkills : Type := {
  technical : list jsstring;
  soft_skills : list jsstring
}.

Record ValidatedInsights (number : Type) : Type := {
  about_section : list jsstring;
  responsibilities_section : list jsstring;
  qualifications_section : list jsstring;
  role_title : value number;
  seniority_level : value number;
  industry_context : value number;
  core_responsibilities : list jsstring;
  required_skills : RequiredSkills;
  tools_technologies : list jsstring;
  key_success_metrics : list jsstring;
  hiring_signals : list jsstring;
  collaboration_aspects : list jsstring;
  extracted_at : jsstring;
  sources_analyzed : nat
}.

Section Normalize.
Context {number : Type} `{Engine number}.

(** [normalizedArray] of route.ts. *)
Definition normalizedArray (value : value number) : outcome (list jsstring) :=
  match value with
  | VArr items =>
      strs <- mapM (fun item =>
                      match item with
                      | VStr s => Return (trim s)
                      | _ => s <- ToString item ;; Return (trim s)
                      end) items ;;
      Return (filter nonempty strs)
  | VStr s => if nonempty (trim s) then Return [trim s] else Return []
  | _ => Return []
  end.

(** [arr.length ? arr : [sentinel]] *)
Definition or_default (arr : list jsstring) (sentinel : jsstring)
  : list jsstring :=
  match arr with
  | [] => [sentinel]
  | _ :: _ => arr
  end.

(** One list-valued entry of the [validatedInsights] literal. *)
Definition list_field (raw : value number) (sentinel : jsstring)
  : outcome (list jsstring) :=
  arr <- normalizedArray raw ;; Return (or_default arr sentinel).

(** [insights.required_skills?.<key> ?? []] *)
Definition skill (insights : value number) (key : jsstring)
  : outcome (value number) :=
  rs <- get insights (js "required_skills") ;;
  Return (coalesce (get_optional rs key) (VArr [])).

(** The [validatedInsights] literal, its properties evaluated in source
    order. *)
Definition validatedInsights (insights : value number)
    (now : jsstring) (job_posting_ids : list jsstring)
  : outcome (ValidatedInsights number) :=
  raw_about <- get insights (js "about_section") ;;
  about <- list_field raw_about not_specified ;;
  raw_resp <- get insights (js "responsibilities_section") ;;
  resp <- list_field raw_resp not_specified ;;
  raw_qual <- get insights (js "qualifications_section") ;;
  qual <- list_field raw_qual not_specified ;;
  raw_title <- get insights (js "role_title") ;;
  raw_seniority <- get insights (js "seniority_level") ;;
  raw_industry <- get insights (js "industry_context") ;;
  raw_core <- get insights (js "core_responsibilities") ;;
  core <- list_field raw_core responsibilities_not_specified ;;
  raw_technical <- skill insights (js "technical") ;;
  tech <- list_field raw_technical not_specified ;;
  raw_soft <- skill insights (js "soft_skills") ;;
  soft <- list_field raw_soft not_specified ;;
  raw_tools <- get insights (js "tools_technologies") ;;
  tools <- list_field raw_tools not_specified ;;
  raw_metrics <- get insights (js "key_success_metrics") ;;
  metrics <- list_field raw_metrics not_specified ;;
  raw_signals <- get insights (js "hiring_signals") ;;
  signals <- list_field raw_signals not_specified ;;
  raw_collab <- get insights (js "collaboration_aspects") ;;
  collab <- list_field raw_collab not_specified ;;
  Return {|
    about_section := about;
    responsibilities_section := resp;
    qualifications_section := qual;
    role_title := or_else raw_title (VStr (js "Unknown Role"));
    seniority_level := or_else raw_seniority (VStr (js "mid"));
    industry_context := or_else raw_industry (VStr (js "General"));
    core_responsibilities := core;
    required_skills := {| technical := tech; soft_skills := soft |};
    tools_technologies := tools;
    key_success_metrics := metrics;
    hiring_signals := signals;
    collaboration_aspects := collab;
    extracted_at := now;
    sources_analyzed := List.length job_posting_ids
  |}.

(** The five seniority levels of the schema. *)
Definition enumerated_seniority (v : value number) : bool :=
  match v with
  | VStr s =>
      existsb (jseqb s)
        [js "entry"; js "mid"; js "senior"; js "lead"; js "executive"]
  | _ => false
  end.

(** The list coercion as the specification words it: an array is mapped
    to the string forms of its elements, trimmed, the empty ones
    dropped; a non-empty string becomes the singleton of its trimmed
    form; anything else becomes the empty list. *)
Definition coercion_as_specified (value : value number)
  : outcome (list jsstring) :=
  match value with
  | VArr items =>
      strs <- mapM ToString items ;; Return (filter nonempty (map trim strs))
  | VStr (c :: s) => Return [trim (c :: s)]
  | _ => Return []
  end.

(** A value [String] converts without throwing: no object reached
    through arrays carries a [toString] property. *)
Fixpoint convertible (v : value number) : bool :=
  match v with
  | VArr items => forallb convertible items
  | VObj props => negb (has_own (js "toString") props)
  | _ => true
  end.

(** A raw field on which [normalizedArray] does not throw. *)
Definition coercible (raw : value number) : bool :=
  match raw with
  | VArr items => forallb convertible items
  | _ => true
  end.

(** The raw fields [validatedInsights] hands to [normalizedArray]. *)
Definition raw_list_fields (insights : value number) : list (value number) :=
  [ get_optional insights (js "about_section");
    get_optional insights (js "responsibilities_section");
    get_optional insights (js "qualifications_section");
    get_optional insights (js "core_responsibilities");
    coalesce (get_optional (get_optional insights (js "required_skills"))
                (js "technical")) (VArr []);
    coalesce (get_optional (get_optional insights (js "required_skills"))
                (js "soft_skills")) (VArr []);
    get_optional insights (js "tools_technologies");
    get_optional insights (js "key_success_metrics");
    get_optional insights (js "hiring_signals");
    get_optional insights (js "collaboration_aspects") ].

(** A list field of the canonical record: at least one element, none of
    them empty. *)
Definition well_formed (l : list jsstring) : Prop :=
  l <> [] /\ Forall (fun s => s <> []) l.

Definition lists_well_formed (r : ValidatedInsights number) : Prop :=
  well_formed (about_section r) /\
  well_formed (responsibilities_section r) /\
  well_formed (qualifications_section r) /\
  well_formed (core_responsibilities r) /\
  well_formed (technical (required_skills r)) /\
  well_formed (soft_skills (required_skills r)) /\
  well_formed (tools_technologies r) /\
  well_formed (key_success_metrics r) /\
  well_formed (hiring_signals r) /\
  well_formed (collaboration_aspects r).

End Normalize.

End Normalizer.

(* ================================================================= *)
(** ** The older copy of the route *)

Module Legacy.

Import Normalizer.

Section Normalize.
Context {number : Type} `{Engine number}.

(** [normalizedArray] of the older copy: array elements are converted to
    strings but not trimmed. *)
Definition normalizedArray (value : value number) : outcome (list jsstring) :=
  match value with
  | VArr items =>
      strs <- mapM (fun item =>
                      match item with
                      | VStr s => Return s
                      | _ => ToString item
                      end) items ;;
      Return (filter nonempty strs)
  | VStr s => if nonempty (trim s) then Return [trim s] else Return []
  | _ => Return []
  end.

End Normalize.

End Legacy.

(* ================================================================= *)
(** ** Console output *)

Module Console.

(** The [console] calls of the route, one constructor per call site. *)
Inductive console_event : Type :=
| ExtractionRequest                      (* log: extraction request *)
| CheckingDocumentsError                 (* error: error checking documents *)
| FoundDocuments (n : nat)               (* log: found n documents for user *)
| SampleDocumentMetadata                 (* log *)
| PostFilterEmpty                        (* warn: retriever post-filter returned
                                            0 documents; falling back to
                                            original docs *)
| RetrieverFiltered (kept total : nat)   (* log: retriever filtered kept of total *)
| CreatingAgent                          (* log *)
| InvokingAgent                          (* log *)
| AgentCompleted                         (* log, with the message dump *)
| ExtractedContent                       (* log: length and preview *)
| ParsedJson                             (* log: parsed JSON successfully *)
| JsonParsingError                       (* error: JSON parsing error, raw content *)
| ValidatedInsightsLog                   (* log: validated insights *)
| DatabaseInsertError                    (* error *)
| StoredInsights                         (* log: stored insights in database *)
| ExtractionError.                       (* error: extraction error, details *)

Inductive level : Type := LevelLog | LevelWarn | LevelError.

Definition level_of (e : console_event) : level :=
  match e with
  | PostFilterEmpty => LevelWarn
  | CheckingDocumentsError | JsonParsingError | DatabaseInsertError
  | ExtractionError => LevelError
  | _ => LevelLog
  end.

Definition is_warning (e : console_event) : bool :=
  match level_of e with LevelWarn => true | _ => false end.

End Console.
Export Console.

(* ================================================================= *)
(** ** The scoped retriever *)

Module Retriever.

Record Document (number : Type) : Type := {
  pageContent : jsstring;
  metadata : value number
}.

(** [slice(0, 20)] *)
Definition limit : nat := 20.

Section Retrieve.
Context {number : Type} `{Engine number}.

(** The store behind [baseRetriever] ([k = 40]): the candidates it
    returns for a query, most relevant first. *)
Variable baseRetriever : jsstring -> list (Document number).

(** The request's scope. *)
Variable user_id : jsstring.
Variable job_posting_ids : list jsstring.

(** The callback handed to [docs.filter]. *)
Definition post_filter (doc : Document number) : bool :=
  let docUserId := get_optional (metadata doc) (js "user_id") in
  let docJobId := get_optional (metadata doc) (js "job_posting_id") in
  let matchesUser := strictly_equals_string docUserId user_id in
  let matchesJob :=
    Nat.eqb (List.length job_posting_ids) 0 || includes job_posting_ids docJobId in
  matchesUser && matchesJob.

(** [filteredRetriever.getRelevantDocuments]: the documents returned and
    what is written to the console. *)
Definition getRelevantDocuments (query : jsstring)
  : list (Document number) * list console_event :=
  let docs := baseRetriever query in
  let filtered := filter post_filter docs in
  match filtered with
  | [] => (firstn limit docs, [PostFilterEmpty])
  | _ :: _ =>
      (firstn limit filtered,
       [RetrieverFiltered (List.length filtered) (List.length docs)])
  end.

(** [filteredRetriever.invoke] *)
Definition invoke (query : jsstring) := getRelevantDocuments query.

(** The scope as the specification words it: a chunk's owner and
    document are the strings its metadata holds under [user_id] and
    [job_posting_id]. *)
Definition ownerId (doc : Document number) : option jsstring :=
  match get_optional (metadata doc) (js "user_id") with
  | VStr s => Some s
  | _ => None
  end.

Definition documentId (doc : Document number) : option jsstring :=
  match get_optional (metadata doc) (js "job_posting_id") with
  | VStr s => Some s
  | _ => None
  end.

Definition in_scope (doc : Document number) : Prop :=
  ownerId doc = Some user_id /\
  (job_posting_ids = [] \/
   exists id, documentId doc = Some id /\ In id job_posting_ids).

(** No degradation signal on the console. *)
Definition silent (console : list console_event) : bool :=
  forallb (fun e => negb (is_warning e)) console.

End Retrieve.

End Retriever.

(* ================================================================= *)
(** ** The response parser *)

Module Parser.

Definition fence : jsstring := js "```".
Definition fence_json : jsstring := js "```json".

(** A greedy [\s*] followed by the rest [k] of the pattern: the longest
    run of white space is tried first, shorter ones on backtracking. *)
Fixpoint spaces_then {A} (k : jsstring -> option A) (s : jsstring) : option A :=
  match s with
  | c :: s' =>
      if isWhiteSpace c then
        match spaces_then k s' with
        | Some r => Some r
        | None => k s
        end
      else k s
  | [] => k []
  end.

(** The tail [\s*```] of both patterns. *)
Definition closing (s : jsstring) : option unit :=
  spaces_then (fun r => match strip_prefix fence r with
                        | Some _ => Some tt
                        | None => None
                        end) s.

(** The lazy group [([\s\S]*?)] followed by the tail: the shortest
    capture after which the tail matches. *)
Fixpoint lazy_capture (s : jsstring) : option jsstring :=
  match closing s with
  | Some _ => Some []
  | None =>
      match s with
      | [] => None
      | c :: s' =>
          match lazy_capture s' with
          | Some cap => Some (c :: cap)
          | None => None
          end
      end
  end.

(** A pattern [<opening>\s*([\s\S]*?)\s*```] tried at the start of [s];
    the result is capture group 1. *)
Definition match_here (opening s : jsstring) : option jsstring :=
  match strip_prefix opening s with
  | Some r => spaces_then lazy_capture r
  | None => None
  end.

(** [s.match(/<opening>\s*([\s\S]*?)\s*```/)]: the leftmost match. *)
Fixpoint regex_match (opening s : jsstring) : option jsstring :=
  match match_here opening s with
  | Some cap => Some cap
  | None =>
      match s with
      | [] => None
      | _ :: s' => regex_match opening s'
      end
  end.

(** [jsonMatch], reduced to its group 1. *)
Definition jsonMatch (extractedContent : jsstring) : option jsstring :=
  match regex_match fence_json extractedContent with
  | Some cap => Some cap
  | None => regex_match fence extractedContent
  end.

(** The text handed to [JSON.parse]. *)
Definition jsonContent (extractedContent : jsstring) : jsstring :=
  match jsonMatch extractedContent with
  | Some cap => cap
  | None => extractedContent
  end.

(** The body of the [try] block that assigns [insights]. *)
Definition parse_insights {number : Type} `{Engine number}
    (extractedContent : jsstring) : outcome (value number) :=
  JSON_parse (jsonContent extractedContent).

(** *** The search in words

    The two patterns read as a search for substrings, independent of
    the backtracking above. *)

(** The first occurrence of [needle] in [hay]: the text before it and
    the text after it. *)
Fixpoint find_first (needle hay : jsstring) : option (jsstring * jsstring) :=
  match strip_prefix needle hay with
  | Some after => Some ([], after)
  | None =>
      match hay with
      | [] => None
      | c :: hay' =>
          match find_first needle hay' with
          | Some (before, after) => Some (c :: before, after)
          | None => None
          end
      end
  end.

(** The block opened by the first [opening] of the text: what stands
    between that opening and the first fence after it, without the white
    space around it.  There is no block when the text holds no [opening],
    or no fence after the first one. *)
Definition block_after (opening raw : jsstring) : option jsstring :=
  match find_first opening raw with
  | Some (_, after) =>
      match find_first fence after with
      | Some (region, _) => Some (trim region)
      | None => None
      end
  | None => None
  end.

(** A block tagged [json] is looked for first, a block opened by a bare
    fence second. *)
Definition block_interior (raw : jsstring) : option jsstring :=
  match block_after fence_json raw with
  | Some interior => Some interior
  | None => block_after fence raw
  end.

(** *** The search as the specification words it

    A fenced block with an optional language tag: the tag is the run of
    letters and digits that follows the opening fence, whatever language
    it names, and the interior begins after it. *)
Definition tag_char (c : code_unit) : bool :=
  ((48 <=? c) && (c <=? 57) || (65 <=? c) && (c <=? 90)
   || (97 <=? c) && (c <=? 122))%N.

Fixpoint skip_tag (s : jsstring) : jsstring :=
  match s with
  | c :: s' => if tag_char c then skip_tag s' else s
  | [] => []
  end.

Definition tagged_block_interior (raw : jsstring) : option jsstring :=
  match find_first fence raw with
  | Some (_, after) =>
      match find_first fence (skip_tag after) with
      | Some (region, _) => Some (trim region)
      | None => None
      end
  | None => None
  end.

Definition content_as_worded (raw : jsstring) : jsstring :=
  match tagged_block_interior raw with
  | Some interior => interior
  | None => raw
  end.

End Parser.

(* ================================================================= *)
(** ** The request handler *)

Module Route.

Import Retriever Parser Normalizer.

(** The request body, as the client component posts it; [None] is an
    absent property. *)
Record Request : Type := {
  req_user_id : option jsstring;
  req_job_posting_ids : option (list jsstring)
}.

(** A row of [role_insights]. *)
Record Row (number : Type) : Type := {
  row_user_id : jsstring;
  row_job_posting_ids : list jsstring;
  row_role_title : value number;
  row_seniority_level : value number;
  row_industry_context : value number;
  row_insights : ValidatedInsights number
}.

(** What the collaborators answer during one request. *)
Record World (number : Type) : Type := {
  (** the [documents] rows selected for the user (at most 5), or
      [checkError] *)
  existingDocs : jsstring -> outcome (list (Document number));
  (** the vector store behind [baseRetriever] *)
  similaritySearch : jsstring -> list (Document number);
  (** the queries the agent sends to [search_job_posting] *)
  agent_queries : list jsstring;
  (** the content of the agent's last message, or the error of a failed
      run *)
  agent_answer : outcome jsstring;
  (** the id of the inserted row, or [insertError] *)
  insert_answer : outcome jsstring;
  (** [new Date().toISOString()] *)
  clock : jsstring
}.

Inductive response (number : Type) : Type :=
| BadRequest (error : jsstring)                          (* status 400 *)
| NotFound (error : jsstring)                            (* status 404 *)
| ParseFailed (raw_content parse_error : jsstring)       (* status 500, error:
                                                            failed to parse
                                                            extraction results
                                                            as JSON *)
| ExtractionFailed (error : exn)                         (* status 500, built
                                                            from the caught
                                                            error *)
| Extracted (role_insight_id : jsstring)
            (insights : ValidatedInsights number).       (* success *)

Arguments BadRequest {number} error.
Arguments NotFound {number} error.
Arguments ParseFailed {number} raw_content parse_error.
Arguments ExtractionFailed {number} error.

Section Handler.
Context {number : Type} `{Engine number}.

Definition new_row (user_id : jsstring) (job_posting_ids : list jsstring)
    (v : ValidatedInsights number) : Row number :=
  {| row_user_id := user_id;
     row_job_posting_ids := job_posting_ids;
     row_role_title := role_title v;
     row_seniority_level := seniority_level v;
     row_industry_context := industry_context v;
     row_insights := v |}.

(** The handler from the point where the agent has answered: parse,
    normalize, insert, respond.  The state is the [role_insights] table;
    the console output is returned alongside. *)
Definition finish (w : World number) (user_id : jsstring)
    (job_posting_ids : list jsstring) (extractedContent : jsstring)
    (table : list (Row number))
  : response number * list (Row number) * list console_event :=
  match parse_insights extractedContent with
  | Throw parseError =>
      (ParseFailed extractedContent (exn_message parseError), table,
       [JsonParsingError])
  | Return insights =>
      match validatedInsights insights (clock w) job_posting_ids with
      | Throw e => (ExtractionFailed e, table, [ParsedJson; ExtractionError])
      | Return validated =>
          match insert_answer w with
          | Throw insertError =>
              (ExtractionFailed insertError, table,
               [ParsedJson; ValidatedInsightsLog; DatabaseInsertError;
                ExtractionError])
          | Return id =>
              (Extracted id validated,
               table ++ [new_row user_id job_posting_ids validated],
               [ParsedJson; ValidatedInsightsLog; StoredInsights])
          end
      end
  end.

(** [POST] *)
Definition POST (w : World number) (req : Request) (table : list (Row number))
  : response number * list (Row number) * list console_event :=
  match req_user_id req with
  | None | Some [] =>
      (BadRequest (js "user_id is required"), table, [ExtractionRequest])
  | Some user_id =>
      match req_job_posting_ids req with
      | None | Some [] =>
          (BadRequest (js "job_posting_ids is required"), table,
           [ExtractionRequest])
      | Some job_posting_ids =>
          match existingDocs w user_id with
          | Throw checkError =>
              (ExtractionFailed checkError, table,
               [ExtractionRequest; CheckingDocumentsError; ExtractionError])
          | Return [] =>
              (NotFound (js "No documents found for this user. Please ingest job posting first."),
               table, [ExtractionRequest; FoundDocuments 0])
          | Return (doc :: docs) =>
              let before :=
                [ExtractionRequest; FoundDocuments (S (List.length docs));
                 SampleDocumentMetadata; CreatingAgent; InvokingAgent] in
              let searches :=
                flat_map
                  (fun q => snd (getRelevantDocuments (similaritySearch w)
                                   user_id job_posting_ids q))
                  (agent_queries w) in
              match agent_answer w with
              | Throw e =>
                  (ExtractionFailed e, table,
                   before ++ searches ++ [ExtractionError])
              | Return extractedContent =>
                  let '(resp, table', out) :=
                    finish w user_id job_posting_ids extractedContent table in
                  (resp, table',
                   before ++ searches ++ [AgentCompleted; ExtractedContent]
                   ++ out)
              end
          end
      end
  end.

End Handler.

End Route.

(* ================================================================= *)
(** ** A reference engine over the integers *)

Module Reference.

(** Numbers are the integers, rendered in decimal as
    [Number::toString] renders an integral Number of magnitude below
    2^53; [JSON.parse] follows the JSON grammar, a later duplicate key
    replacing the earlier value in place.  Number literals with a
    fraction or an exponent have no counterpart here and are refused. *)

Definition Z_toString (z : Z) : jsstring :=
  js (DecimalString.NilZero.string_of_int (Z.to_int z)).

Definition unexpected_token : exn := SyntaxError (js "Unexpected token in JSON").

Definition json_ws (c : code_unit) : bool :=
  ((c =? 32) || (c =? 9) || (c =? 10) || (c =? 13))%N.

Fixpoint skip_ws (s : jsstring) : jsstring :=
  match s with
  | c :: s' => if json_ws c then skip_ws s' else s
  | [] => []
  end.

Definition is_digit (c : code_unit) : bool := ((48 <=? c) && (c <=? 57))%N.

Definition hex_digit (c : code_unit) : option N :=
  (if (48 <=? c) && (c <=? 57) then Some (c - 48)
   else if (65 <=? c) && (c <=? 70) then Some (c - 55)
   else if (97 <=? c) && (c <=? 102) then Some (c - 87)
   else None)%N.

(** The character a two-character escape sequence stands for. *)
Definition escape (c : code_unit) : option code_unit :=
  (if c =? 34 then Some 34          (* quotation mark *)
   else if c =? 92 then Some 92     (* reverse solidus *)
   else if c =? 47 then Some 47     (* solidus *)
   else if c =? 98 then Some 8      (* backspace *)
   else if c =? 102 then Some 12    (* form feed *)
   else if c =? 110 then Some 10    (* line feed *)
   else if c =? 114 then Some 13    (* carriage return *)
   else if c =? 116 then Some 9     (* tab *)
   else None)%N.

(** A string literal, after its opening quote. *)
Fixpoint string_body (s : jsstring) : option (jsstring * jsstring) :=
  match s with
  | [] => None
  | c :: rest =>
      if (c =? 34)%N then Some ([], rest)
      else if (c <? 32)%N then None
      else if (c =? 92)%N then
        match rest with
        | e :: rest1 =>
            if (e =? 117)%N then
              match rest1 with
              | h1 :: h2 :: h3 :: h4 :: rest2 =>
                  match hex_digit h1, hex_digit h2, hex_digit h3, hex_digit h4,
                        string_body rest2 with
                  | Some a, Some b, Some c', Some d, Some (str, r) =>
                      Some ((((a * 16 + b) * 16 + c') * 16 + d)%N :: str, r)
                  | _, _, _, _, _ => None
                  end
              | _ => None
              end
            else
              match escape e, string_body rest1 with
              | Some c', Some (str, r) => Some (c' :: str, r)
              | _, _ => None
              end
        | [] => None
        end
      else
        match string_body rest with
        | Some (str, r) => Some (c :: str, r)
        | None => None
        end
  end.

(** The digits at the head of [s], as a number. *)
Fixpoint digits (acc : N) (s : jsstring) : N * jsstring :=
  match s with
  | c :: s' => if is_digit c then digits (acc * 10 + (c - 48))%N s' else (acc, s)
  | [] => (acc, [])
  end.

(** An integer literal without its sign: [0] or a digit string that does
    not start with [0], followed by neither a fraction nor an exponent. *)
Definition unsigned_integer (s : jsstring) : option (N * jsstring) :=
  match s with
  | c :: s' =>
      if is_digit c then
        let '(n, rest) := if (c =? 48)%N then (0%N, s') else digits 0 s in
        match rest with
        | d :: _ =>
            if is_digit d || (d =? 46)%N || (d =? 101)%N || (d =? 69)%N
            then None else Some (n, rest)
        | [] => Some (n, rest)
        end
      else None
  | [] => None
  end.

(** [CreateDataProperty]: a key already present keeps its place and
    takes the new value. *)
Fixpoint define_property {V} (key : jsstring) (v : V)
    (props : list (jsstring * V)) : list (jsstring * V) :=
  match props with
  | [] => [(key, v)]
  | (k, old) :: rest =>
      if jseqb k key then (k, v) :: rest
      else (k, old) :: define_property key v rest
  end.

Fixpoint parse_value (fuel : nat) (s : jsstring) : option (value Z * jsstring) :=
  match fuel with
  | O => None
  | S fuel' =>
      match skip_ws s with
      | [] => None
      | c :: rest =>
          if (c =? 123)%N then                       (* { *)
            match skip_ws rest with
            | d :: rest' =>
                if (d =? 125)%N then Some (VObj [], rest')
                else parse_members fuel' [] rest
            | [] => None
            end
          else if (c =? 91)%N then                   (* [ *)
            match skip_ws rest with
            | d :: rest' =>
                if (d =? 93)%N then Some (VArr [], rest')
                else parse_elements fuel' [] rest
            | [] => None
            end
          else if (c =? 34)%N then                   (* string *)
            match string_body rest with
            | Some (str, r) => Some (VStr str, r)
            | None => None
            end
          else if (c =? 45)%N then                   (* negative number *)
            match unsigned_integer rest with
            | Some (n, r) => Some (VNum (- Z.of_N n)%Z, r)
            | None => None
            end
          else if is_digit c then
            match unsigned_integer (c :: rest) with
            | Some (n, r) => Some (VNum (Z.of_N n), r)
            | None => None
            end
          else
            match strip_prefix (js "true") (c :: rest),
                  strip_prefix (js "false") (c :: rest),
                  strip_prefix (js "null") (c :: rest) with
            | Some r, _, _ => Some (VBool true, r)
            | _, Some r, _ => Some (VBool false, r)
            | _, _, Some r => Some (VNull, r)
            | _, _, _ => None
            end
      end
  end

with parse_members (fuel : nat) (acc : list (jsstring * value Z)) (s : jsstring)
  : option (value Z * jsstring) :=
  match fuel with
  | O => None
  | S fuel' =>
      match skip_ws s with
      | q :: rest =>
          if (q =? 34)%N then
            match string_body rest with
            | Some (key, rest1) =>
                match skip_ws rest1 with
                | colon :: rest2 =>
                    if (colon =? 58)%N then
                      match parse_value fuel' rest2 with
                      | Some (v, rest3) =>
                          let acc' := define_property key v acc in
                          match skip_ws rest3 with
                          | d :: rest4 =>
                              if (d =? 44)%N then parse_members fuel' acc' rest4
                              else if (d =? 125)%N then Some (VObj acc', rest4)
                              else None
                          | [] => None
                          end
                      | None => None
                      end
                    else None
                | [] => None
                end
            | None => None
            end
          else None
      | [] => None
      end
  end

with parse_elements (fuel : nat) (acc : list (value Z)) (s : jsstring)
  : option (value Z * jsstring) :=
  match fuel with
  | O => None
  | S fuel' =>
      match parse_value fuel' s with
      | Some (v, rest) =>
          match skip_ws rest with
          | d :: rest' =>
              if (d =? 44)%N then parse_elements fuel' (acc ++ [v]) rest'
              else if (d =? 93)%N then Some (VArr (acc ++ [v]), rest')
              else None
          | [] => None
          end
      | None => None
      end
  end.

Definition parse (text : jsstring) : outcome (value Z) :=
  match parse_value (2 * List.length text + 2) text with
  | Some (v, rest) =>
      match skip_ws rest with
      | [] => Return v
      | _ :: _ => Throw unexpected_token
      end
  | None => Throw unexpected_token
  end.

#[global] Instance engine : Engine Z := {
  Number_toString := Z_toString;
  Number_toBoolean := fun z => negb (Z.eqb z 0);
  JSON_parse := parse
}.

End Reference.

(* ================================================================= *)
(** ** The ingestion route *)

Module Ingest.

Import Retriever Normalizer.

(** [content.split(/\r?\n/)]: a line feed, or a carriage return followed
    by a line feed, ends a line; a lone carriage return does not. *)
Fixpoint split_lines (s : jsstring) : list jsstring :=
  match s with
  | [] => [[]]
  | c :: s' =>
      if (c =? 10)%N then [] :: split_lines s'
      else
        let keep :=
          match split_lines s' with
          | line :: lines => (c :: line) :: lines
          | [] => [[c]]
          end in
        if (c =? 13)%N then
          match s' with
          | d :: s'' => if (d =? 10)%N then [] :: split_lines s'' else keep
          | [] => keep
          end
        else keep
  end.

(** [[A-Z]] *)
Definition is_upper (c : code_unit) : bool := ((65 <=? c) && (c <=? 90))%N.

(** The class [[A-Za-z0-9 &/\-]] *)
Definition heading_char (c : code_unit) : bool :=
  (is_upper c || (97 <=? c) && (c <=? 122) || (48 <=? c) && (c <=? 57)
   || (c =? 32) || (c =? 38) || (c =? 47) || (c =? 45))%N.

(** A greedy run of characters of a class followed by the rest [k] of
    the pattern, which receives the run and what follows it: the longest
    run is tried first, shorter ones on backtracking. *)
Fixpoint chars_then {A} (p : code_unit -> bool)
    (k : jsstring -> jsstring -> option A) (run s : jsstring) : option A :=
  match s with
  | c :: s' =>
      if p c then
        match chars_then p k (run ++ [c]) s' with
        | Some r => Some r
        | None => k run s
        end
      else k run s
  | [] => k run []
  end.

(** [line.match(headingPattern)], reduced to the group [heading]: an
    upper-case letter, at least two characters of the class, an optional
    colon, and the end of the line. *)
Definition headingPattern (line : jsstring) : option jsstring :=
  match line with
  | c :: rest =>
      if is_upper c then
        chars_then heading_char
          (fun run tail =>
             if Nat.leb 2 (List.length run) then
               match tail with
               | [] => Some (c :: run)
               | d :: [] => if (d =? 58)%N then Some (c :: run) else None
               | _ :: _ :: _ => None
               end
             else None)
          [] rest
      else None
  | [] => None
  end.

(** The [for] loop: the heading of the first line that has one. *)
Fixpoint first_heading (lines : list jsstring) : option jsstring :=
  match lines with
  | [] => None
  | line :: lines' =>
      match headingPattern line with
      | Some heading => Some heading
      | None => first_heading lines'
      end
  end.

(** The trimmed, non-empty lines of a chunk. *)
Definition lines_of (content : jsstring) : list jsstring :=
  filter nonempty (map trim (split_lines content)).

(** [deriveSectionTitle] *)
Definition deriveSectionTitle (content : jsstring) : jsstring :=
  match lines_of content with
  | [] => js "General"
  | first :: _ =>
      match first_heading (firstn 6 (lines_of content)) with
      | Some heading => heading
      | None => firstn 80 first
      end
  end.

(** The decimal rendering of an array index or a length. *)
Definition index_key (i : nat) : jsstring :=
  js (DecimalString.NilZero.string_of_uint (Nat.to_uint i)).

(** [[x0, x1, ...]] as the own properties ["0"], ["1"], ... *)
Fixpoint indexed {V} (from : nat) (xs : list V) : list (jsstring * V) :=
  match xs with
  | [] => []
  | x :: xs' => (index_key from, x) :: indexed (S from) xs'
  end.

Section Enrich.
Context {number : Type}.

(** The Number of an array index or a length. *)
Variable Number_of_nat : nat -> number.

(** The own enumerable properties an object spread copies from its
    source: those of a plain object, the elements of an array or the
    characters of a string under their indices, and nothing from any
    other value. *)
Definition spread_source (source : value number)
  : list (jsstring * value number) :=
  match source with
  | VObj props => props
  | VArr items => indexed 0 items
  | VStr s => indexed 0 (map (fun c => VStr [c]) s)
  | _ => []
  end.

(** [{ ...target, ...source }]: every key of the source is defined on
    the target with the value the source holds for it. *)
Definition spread (target : list (jsstring * value number))
    (source : value number) : list (jsstring * value number) :=
  let props := spread_source source in
  fold_left
    (fun acc kv =>
       Reference.define_property (fst kv)
         (match own_property (fst kv) props with
          | Some v => v
          | None => snd kv
          end) acc)
    props target.

(** The metadata literal of one enriched chunk. *)
Definition chunk_metadata (user_id job_posting_id source_type : jsstring)
    (index total : nat) (ingestedAt sectionTitle : jsstring)
    (metadata : value number) : value number :=
  VObj (spread
          [ (js "user_id", VStr user_id);
            (js "job_posting_id", VStr job_posting_id);
            (js "source_type", VStr source_type);
            (js "chunkIndex", VNum (Number_of_nat index));
            (js "totalChunks", VNum (Number_of_nat total));
            (js "ingestedAt", VStr ingestedAt);
            (js "section_title", VStr sectionTitle) ]
          metadata).

(** [chunks.map((chunk, index) => ...)], from index [index] on; [clock]
    is the time read for each chunk. *)
Fixpoint enrich_from (user_id job_posting_id source_type : jsstring)
    (metadata : value number) (clock : nat -> jsstring) (total index : nat)
    (chunks : list jsstring) : list (Document number) :=
  match chunks with
  | [] => []
  | pageContent :: chunks' =>
      {| pageContent := pageContent;
         metadata :=
           chunk_metadata user_id job_posting_id source_type index total
             (clock index) (deriveSectionTitle pageContent) metadata |}
      :: enrich_from user_id job_posting_id source_type metadata clock total
           (S index) chunks'
  end.

(** [enrichedChunks] *)
Definition enrichedChunks (user_id job_posting_id source_type : jsstring)
    (metadata : value number) (clock : nat -> jsstring)
    (chunks : list jsstring) : list (Document number) :=
  enrich_from user_id job_posting_id source_type metadata clock
    (List.length chunks) 0 chunks.

(** The request body; [None] is an absent property. *)
Record Request : Type := {
  req_user_id : option jsstring;
  req_source_type : option jsstring;
  req_content : option jsstring;
  req_url : option jsstring;
  req_metadata : option (value number)
}.

(** A row of [job_postings]. *)
Record JobPosting : Type := {
  jp_user_id : jsstring;
  jp_source_type : jsstring;
  jp_source_url : option jsstring;
  jp_raw_content : jsstring;
  jp_metadata : value number
}.

(** What the collaborators answer during one request. *)
Record World : Type := {
  (** the page contents [CheerioWebBaseLoader] loads from a URL *)
  loader : jsstring -> outcome (list jsstring);
  (** the id of the inserted job posting, or [jobError] *)
  job_insert_answer : outcome jsstring;
  (** the texts of the chunks the splitter cuts *)
  splitter : jsstring -> list jsstring;
  (** whether [vectorStore.addDocuments] succeeds *)
  addDocuments_answer : outcome unit;
  (** [new Date().toISOString()] at each chunk *)
  clock : nat -> jsstring
}.

Inductive response : Type :=
| BadRequest (error : jsstring)                          (* status 400 *)
| IngestionFailed (error : exn)                          (* status 500 *)
| Ingested (job_posting_id : jsstring) (chunks_created : nat)
           (message : jsstring).                         (* success *)

(** The [console] calls of the handler. *)
Inductive ingest_event : Type :=
| IngestionRequest
| ContentLength
| JobPostingInsertError
| JobPostingCreated
| CreatedChunks (n : nat)
| SampleChunkMetadata
| AddingDocuments
| AddedDocuments
| IngestionError.

(** What one request leaves behind: the response, the [job_postings]
    table, the documents handed to the vector store (if
    [addDocuments] was called) and the console output. *)
Record Result : Type := {
  res_response : response;
  res_job_postings : list JobPosting;
  res_documents : option (list (Document number));
  res_console : list ingest_event
}.

(** [loadFromUrl] *)
Definition loadFromUrl (w : World) (url : jsstring)
  : outcome (list jsstring) :=
  match loader w url with
  | Return docs => Return docs
  | Throw error =>
      Throw (ServiceError (js "Failed to load URL: " ++ exn_message error))
  end.

(** [docs.map(d => d.pageContent).join("\n\n")] *)
Fixpoint join_pages (pages : list jsstring) : jsstring :=
  match pages with
  | [] => []
  | page :: [] => page
  | page :: pages' => page ++ [10; 10]%N ++ join_pages pages'
  end.

Definition cannot_read_metadata : exn :=
  TypeError (js "Cannot read properties of undefined (reading 'metadata')").

(** The handler from the point where [rawContent] is known. *)
Definition store (w : World) (user_id source_type : jsstring)
    (sourceUrl : option jsstring) (metadata : value number)
    (rawContent : jsstring) (table : list JobPosting)
    (console : list ingest_event) : Result :=
  match trim rawContent with
  | [] =>
      {| res_response := BadRequest (js "No content to process");
         res_job_postings := table;
         res_documents := None;
         res_console := console |}
  | _ :: _ =>
      match job_insert_answer w with
      | Throw jobError =>
          {| res_response := IngestionFailed jobError;
             res_job_postings := table;
             res_documents := None;
             res_console :=
               console ++ [ContentLength; JobPostingInsertError;
                           IngestionError] |}
      | Return id =>
          let table' :=
            table ++ [{| jp_user_id := user_id;
                         jp_source_type := source_type;
                         jp_source_url := sourceUrl;
                         jp_raw_content := rawContent;
                         jp_metadata := metadata |}] in
          let chunks := splitter w rawContent in
          let enriched :=
            enrichedChunks user_id id source_type metadata (clock w) chunks in
          let console' :=
            console ++ [ContentLength; JobPostingCreated;
                        CreatedChunks (List.length chunks)] in
          match enriched with
          | [] =>
              (* enrichedChunks[0].metadata *)
              {| res_response := IngestionFailed cannot_read_metadata;
                 res_job_postings := table';
                 res_documents := None;
                 res_console := console' ++ [IngestionError] |}
          | _ :: _ =>
              match addDocuments_answer w with
              | Throw e =>
                  {| res_response := IngestionFailed e;
                     res_job_postings := table';
                     res_documents := Some enriched;
                     res_console :=
                       console' ++ [SampleChunkMetadata; AddingDocuments;
                                    IngestionError] |}
              | Return _ =>
                  {| res_response :=
                       Ingested id (List.length chunks)
                         (js "Successfully ingested "
                          ++ index_key (List.length chunks) ++ js " chunks");
                     res_job_postings := table';
                     res_documents := Some enriched;
                     res_console :=
                       console' ++ [SampleChunkMetadata; AddingDocuments;
                                    AddedDocuments] |}
              end
          end
      end
  end.

(** [POST] *)
Definition POST (w : World) (req : Request) (table : list JobPosting)
  : Result :=
  let reject (error : jsstring) :=
    {| res_response := BadRequest error;
       res_job_postings := table;
       res_documents := None;
       res_console := [IngestionRequest] |} in
  let metadata :=
    match req_metadata req with
    | Some m => m
    | None => VObj []
    end in
  let sourceUrl :=
    match req_url req with
    | Some (c :: url) => Some (c :: url)
    | _ => None
    end in
  match req_user_id req with
  | None | Some [] => reject (js "user_id is required")
  | Some user_id =>
      match req_source_type req with
      | Some source_type =>
          if jseqb source_type (js "text") then
            match req_content req with
            | None | Some [] => reject (js "content is required for text type")
            | Some content =>
                store w user_id source_type sourceUrl metadata content table
                  [IngestionRequest]
            end
          else if jseqb source_type (js "url") then
            match req_url req with
            | None | Some [] => reject (js "url is required for url type")
            | Some url =>
                match loadFromUrl w url with
                | Throw e =>
                    {| res_response := IngestionFailed e;
                       res_job_postings := table;
                       res_documents := None;
                       res_console := [IngestionRequest; IngestionError] |}
                | Return docs =>
                    store w user_id source_type sourceUrl metadata
                      (join_pages docs) table [IngestionRequest]
                end
            end
          else reject (js "Invalid source_type. Must be 'text' or 'url'")
      | None => reject (js "Invalid source_type. Must be 'text' or 'url'")
      end
  end.

End Enrich.

End Ingest.

(* ================================================================= *)
(** ** The normalizer of the older copy *)

Module LegacyRoute.

Import Normalizer.

Section Normalize.
Context {number : Type} `{Engine number}.

(** One list-valued entry of the older [validatedInsights] literal. *)
Definition list_field (raw : value number) (sentinel : jsstring)
  : outcome (list jsstring) :=
  arr <- Legacy.normalizedArray raw ;; Return (or_default arr sentinel).

(** The [validatedInsights] literal of the older copy, its properties
    evaluated in source order: the scalars follow [about_section]. *)
Definition validatedInsights (insights : value number)
    (now : jsstring) (job_posting_ids : list jsstring)
  : outcome (ValidatedInsights number) :=
  raw_about <- get insights (js "about_section") ;;
  about <- list_field raw_about not_specified ;;
  raw_title <- get insights (js "role_title") ;;
  raw_seniority <- get insights (js "seniority_level") ;;
  raw_industry <- get insights (js "industry_context") ;;
  raw_resp <- get insights (js "responsibilities_section") ;;
  resp <- list_field raw_resp not_specified ;;
  raw_qual <- get insights (js "qualifications_section") ;;
  qual <- list_field raw_qual not_specified ;;
  raw_core <- get insights (js "core_responsibilities") ;;
  core <- list_field raw_core responsibilities_not_specified ;;
  raw_technical <- skill insights (js "technical") ;;
  tech <- list_field raw_technical not_specified ;;
  raw_soft <- skill insights (js "soft_skills") ;;
  soft <- list_field raw_soft not_specified ;;
  raw_tools <- get insights (js "tools_technologies") ;;
  tools <- list_field raw_tools not_specified ;;
  raw_metrics <- get insights (js "key_success_metrics") ;;
  metrics <- list_field raw_metrics not_specified ;;
  raw_signals <- get insights (js "hiring_signals") ;;
  signals <- list_field raw_signals not_specified ;;
  raw_collab <- get insights (js "collaboration_aspects") ;;
  collab <- list_field raw_collab not_specified ;;
  Return {|
    about_section := about;
    responsibilities_section := resp;
    qualifications_section := qual;
    role_title := or_else raw_title (VStr (js "Unknown Role"));
    seniority_level := or_else raw_seniority (VStr (js "mid"));
    industry_context := or_else raw_industry (VStr (js "General"));
    core_responsibilities := core;
    required_skills := {| technical := tech; soft_skills := soft |};
    tools_technologies := tools;
    key_success_metrics := metrics;
    hiring_signals := signals;
    collaboration_aspects := collab;
    extracted_at := now;
    sources_analyzed := List.length job_posting_ids
  |}.

End Normalize.

(** A list field trimmed again: every element trimmed, the empty ones
    dropped, the sentinel put back when nothing is left. *)
Definition retrimmed (l : list jsstring) (sentinel : jsstring)
  : list jsstring :=
  or_default (filter nonempty (map trim l)) sentinel.

End LegacyRoute.

(* ================================================================= *)
(** ** Shapes used in the statements *)

Module Shapes.

Import Normalizer Route.

(** A string that does not end with white space. *)
Definition ends_clean (s : jsstring) : Prop := starts_clean (rev s).

(** [hay.includes(needle)] *)
Definition contains (needle hay : jsstring) : Prop :=
  exists pre post, hay = pre ++ needle ++ post.

(** No backtick among the code units. *)
Definition no_backtick (s : jsstring) : bool :=
  forallb (fun c => negb (c =? 96)%N) s.

(** What [headingPattern] accepts as a heading: an upper-case letter
    followed by at least two characters of the class. *)
Definition heading_shaped (h : jsstring) : Prop :=
  match h with
  | c :: run =>
      Ingest.is_upper c = true /\
      forallb Ingest.heading_char run = true /\
      2 <= List.length run
  | [] => False
  end.

(** The record in which every field has its default. *)
Definition default_insights {number : Type} (now : jsstring)
    (job_posting_ids : list jsstring) : ValidatedInsights number :=
  {| about_section := [not_specified];
     responsibilities_section := [not_specified];
     qualifications_section := [not_specified];
     role_title := VStr (js "Unknown Role");
     seniority_level := VStr (js "mid");
     industry_context := VStr (js "General");
     core_responsibilities := [responsibilities_not_specified];
     required_skills := {| technical := [not_specified];
                           soft_skills := [not_specified] |};
     tools_technologies := [not_specified];
     key_success_metrics := [not_specified];
     hiring_signals := [not_specified];
     collaboration_aspects := [not_specified];
     extracted_at := now;
     sources_analyzed := List.length job_posting_ids |}.

(** A [role_insights] row whose columns repeat the scalars of its
    insights, whose scalars are truthy and whose list fields are
    well formed. *)
Definition row_well_formed {number : Type} `{Engine number}
    (row : Row number) : Prop :=
  row_role_title row = role_title (row_insights row) /\
  row_seniority_level row = seniority_level (row_insights row) /\
  row_industry_context row = industry_context (row_insights row) /\
  ToBoolean (row_role_title row) = true /\
  ToBoolean (row_seniority_level row) = true /\
  ToBoolean (row_industry_context row) = true /\
  lists_well_formed (row_insights row).

End Shapes.
Import Shapes.

(* ================================================================= *)
(** ** Sample inputs *)

Module Samples.

Import Retriever Route.

(** The texts of the specification's parser examples. *)
Definition fenced_example : jsstring :=
  js "```json" ++ LF ++ jsq "{'a':1}" ++ LF ++ js "```".
Definition bare_example : jsstring := jsq "{'a':1}".
Definition prose_example : jsstring := js "not json".

(** The same object in a block tagged with another language. *)
Definition js_tagged_example : jsstring :=
  js "```js" ++ LF ++ jsq "{'a':1}" ++ LF ++ js "```".

(** Two blocks in one answer. *)
Definition two_blocks_example : jsstring :=
  js "```" ++ LF ++ js "1" ++ LF ++ js "``` then ```json" ++ LF ++ js "2"
  ++ LF ++ js "``` and ```json" ++ LF ++ js "3" ++ LF ++ js "```".

(** A store that answers ten chunks of another owner, one that answers
    nothing, and one that answers six chunks of which three belong to
    owner [u1] and document [doc1]. *)
Definition chunk (owner document : string) : Document Z :=
  {| pageContent := js "text";
     metadata := VObj [(js "user_id", VStr (js owner));
                       (js "job_posting_id", VStr (js document))] |}.

Definition foreign_store (_ : jsstring) : list (Document Z) :=
  repeat (chunk "u2" "doc9") 10.

Definition empty_store (_ : jsstring) : list (Document Z) := [].

Definition mixed_store (_ : jsstring) : list (Document Z) :=
  [chunk "u2" "doc9"; chunk "u1" "doc1"; chunk "u1" "doc2"; chunk "u1" "doc1";
   chunk "u2" "doc1"; chunk "u1" "doc1"].

(** A request whose agent answers prose. *)
Definition prose_world : World Z :=
  {| existingDocs := fun _ => Return [chunk "u1" "doc1"];
     similaritySearch := mixed_store;
     agent_queries := [js "responsibilities"; js "qualifications"];
     agent_answer := Return prose_example;
     insert_answer := Return (js "row-1");
     clock := js "2025-01-01T00:00:00.000Z" |}.

Definition sample_request : Request :=
  {| req_user_id := Some (js "u1");
     req_job_posting_ids := Some [js "doc1"] |}.

(** An answer whose [about_section] array holds an object with a
    [toString] key. *)
Definition toString_text : jsstring :=
  jsq "{'about_section': [{'toString': 'x'}]}".

Definition toString_insights {number : Type} : value number :=
  VObj [(js "about_section", VArr [VObj [(js "toString", VStr (js "x"))]])].

(** The third example of the specification: white space, an empty
    string and a number in [tools_technologies]. *)
Definition tools_example : value Z :=
  VArr [VStr (js "  Python "); VStr []; VNum 42%Z].

(** An answer with a seniority level outside the schema. *)
Definition principal_insights {number : Type} : value number :=
  VObj [(js "seniority_level", VStr (js "principal"))].

(** The scenario of the specification: prose around a fenced answer. *)
Definition scenario_text : jsstring :=
  js "Here: ```json" ++ LF
  ++ jsq "{'role_title':'Engineer','tools_technologies':['Go',' Go ']}"
  ++ LF ++ js "```".

Definition scenario_world : World Z :=
  {| existingDocs := fun _ => Return [chunk "u1" "doc1"];
     similaritySearch := mixed_store;
     agent_queries := [js "responsibilities"];
     agent_answer := Return scenario_text;
     insert_answer := Return (js "row-1");
     clock := js "2025-01-01T00:00:00.000Z" |}.

End Samples.
Import Samples.

(* ================================================================= *)
(** ** Sample inputs for the ingestion route *)

Module IngestSamples.

Import Retriever Parser Ingest.

(** A chunk that opens with a heading line. *)
Definition skills_chunk : jsstring :=
  js "Required Skills" ++ [58%N] ++ LF ++ js "- Go" ++ LF ++ js "- SQL".

(** A chunk of white space. *)
Definition blank_chunk : jsstring := js "  " ++ LF ++ js " ".

(** An answer wrapped in prose and white space. *)
Definition padded_answer : jsstring :=
  js "Here it is: " ++ fence_json ++ LF ++ js "  [1, 2]  " ++ LF ++ fence
  ++ js " Done.".

(** The collaborators of an ingestion that succeeds with one chunk per
    request. *)
Definition one_chunk_world : World :=
  {| loader := fun _ => Return [skills_chunk];
     job_insert_answer := Return (js "doc1");
     splitter := fun content => [content];
     addDocuments_answer := Return tt;
     clock := fun _ => js "2025-01-01T00:00:00.000Z" |}.

(** The chunks of a request without metadata, and of one whose metadata
    names another user. *)
Definition plain_chunks : list (Document Z) :=
  enrichedChunks Z.of_nat (js "u1") (js "doc1") (js "text") (VObj [])
    (clock one_chunk_world) [skills_chunk; blank_chunk].

Definition overridden_chunks : list (Document Z) :=
  enrichedChunks Z.of_nat (js "u1") (js "doc1") (js "text")
    (VObj [(js "user_id", VStr (js "u2"))])
    (clock one_chunk_world) [skills_chunk].

(** A text request whose content is blank. *)
Definition blank_request : Request (number := Z) :=
  {| req_user_id := Some (js "u1");
     req_source_type := Some (js "text");
     req_content := Some blank_chunk;
     req_url := None;
     req_metadata := None |}.

(** Collaborators whose vector store fails after the job posting was
    inserted, and a url request that reaches them. *)
Definition failing_store_world : World :=
  {| loader := fun _ => Return [skills_chunk];
     job_insert_answer := Return (js "doc1");
     splitter := fun content => [content];
     addDocuments_answer := Throw (ServiceError (js "vector store is down"));
     clock := fun _ => js "2025-01-01T00:00:00.000Z" |}.

Definition url_request : Request (number := Z) :=
  {| req_user_id := Some (js "u1");
     req_source_type := Some (js "url");
     req_content := None;
     req_url := Some (js "https://example.com/job");
     req_metadata := None |}.

End IngestSamples.
Import IngestSamples.

(* ================================================================= *)
(** * Properties *)

Unset Implicit Arguments.

(* ----------------------------------------------------------------- *)
(** ** Strings *)

Module StringFacts.

Lemma jseqb_eq (a b : jsstring) : jseqb a b = true <-> a = b.
Proof.
  revert b; induction a as [|x a IH]; intros [|y b]; simpl;
    try (split; [discriminate | congruence]); try tauto.
  rewrite andb_true_iff, N.eqb_eq, IH.
  split; [intros [-> ->]; reflexivity | intros [= -> ->]; auto].
Qed.

Lemma jseqb_refl (a : jsstring) : jseqb a a = true.
Proof. apply jseqb_eq; reflexivity. Qed.

Lemma strip_prefix_app (p s r : jsstring) :
  strip_prefix p s = Some r -> s = p ++ r.
Proof.
  revert s; induction p as [|x p IH]; intros s; simpl.
  - intros [= ->]; reflexivity.
  - destruct s as [|y s]; [discriminate|].
    destruct (N.eqb x y) eqn:E; [|discriminate].
    apply N.eqb_eq in E; subst y.
    intros Hs; rewrite (IH _ Hs); reflexivity.
Qed.

Lemma strip_prefix_self (p r : jsstring) : strip_prefix p (p ++ r) = Some r.
Proof.
  induction p as [|x p IH]; simpl; [reflexivity|].
  rewrite N.eqb_refl; exact IH.
Qed.

Lemma trimStart_clean (s : jsstring) : starts_clean (trimStart s).
Proof.
  induction s as [|c s IH]; simpl; [exact I|].
  destruct (isWhiteSpace c) eqn:E; [exact IH | exact E].
Qed.

Lemma trimStart_id (s : jsstring) : starts_clean s -> trimStart s = s.
Proof.
  destruct s as [|c s]; simpl; [reflexivity|].
  intros ->; reflexivity.
Qed.

(** What [trimStart] removes is a run of white space. *)
Lemma trimStart_split (s : jsstring) :
  exists ws, s = ws ++ trimStart s /\ forallb isWhiteSpace ws = true.
Proof.
  induction s as [|c s [ws [E W]]]; simpl.
  - exists []; auto.
  - destruct (isWhiteSpace c) eqn:C.
    + exists (c :: ws); simpl; rewrite C, W; split; [congruence | reflexivity].
    + exists []; auto.
Qed.

Lemma starts_clean_app (a b : jsstring) :
  a <> [] -> starts_clean (a ++ b) -> starts_clean a.
Proof. destruct a; [congruence | auto]. Qed.

Lemma trimEnd_clean (s : jsstring) : starts_clean s -> starts_clean (trimEnd s).
Proof.
  unfold trimEnd; intros Hs.
  destruct (trimStart_split (rev s)) as [ws [E _]].
  destruct (trimStart (rev s)) as [|c t] eqn:T; [exact I|].
  assert (Hrev : s = rev (c :: t) ++ rev ws).
  { rewrite <- rev_app_distr, <- E, rev_involutive; reflexivity. }
  rewrite Hrev in Hs.
  apply starts_clean_app in Hs; [exact Hs|].
  simpl; intros C; apply app_eq_nil in C; destruct C; discriminate.
Qed.

Lemma trim_idempotent (s : jsstring) : trim (trim s) = trim s.
Proof.
  unfold trim.
  rewrite (trimStart_id _ (trimEnd_clean _ (trimStart_clean s))).
  unfold trimEnd; rewrite rev_involutive.
  rewrite (trimStart_id _ (trimStart_clean _)); reflexivity.
Qed.

Lemma trim_nil : trim [] = [].
Proof. reflexivity. Qed.

End StringFacts.
Import StringFacts.

(* ----------------------------------------------------------------- *)
(** ** The scoped retriever *)

Module RetrieverFacts.
Import Retriever.

Section Facts.
Context {number : Type} `{Engine number}.
Variable baseRetriever : jsstring -> list (Document number).
Variable user_id : jsstring.
Variable job_posting_ids : list jsstring.

Local Abbreviation keep := (post_filter user_id job_posting_ids).
Local Abbreviation scoped := (in_scope user_id job_posting_ids).
Local Abbreviation retrieve := (getRelevantDocuments baseRetriever user_id job_posting_ids).

Lemma includes_In (v : value number) :
  includes job_posting_ids v = true <->
  exists id, v = VStr id /\ In id job_posting_ids.
Proof.
  unfold includes; rewrite existsb_exists; split.
  - intros [id [Hin Heq]]. destruct v; simpl in Heq; try discriminate.
    apply jseqb_eq in Heq; subst; eauto.
  - intros [id [-> Hin]]. exists id; split; [exact Hin|].
    simpl; apply jseqb_refl.
Qed.

(** The filter callback decides the scope of the specification. *)
Lemma post_filter_in_scope (doc : Document number) :
  keep doc = true <-> scoped doc.
Proof.
  unfold post_filter, in_scope, ownerId, documentId.
  rewrite andb_true_iff, orb_true_iff, includes_In, Nat.eqb_eq.
  split.
  - intros [Hu Hj]; split.
    + destruct (get_optional (metadata doc) (js "user_id")); simpl in Hu;
        try discriminate.
      apply jseqb_eq in Hu; subst; reflexivity.
    + destruct Hj as [Hj | [id [Hid Hin]]].
      * left; destruct job_posting_ids; [reflexivity | discriminate].
      * right; exists id; rewrite Hid; auto.
  - intros [Hu Hj]; split.
    + destruct (get_optional (metadata doc) (js "user_id")); try discriminate.
      injection Hu as ->; simpl; apply jseqb_refl.
    + destruct Hj as [-> | [id [Hid Hin]]]; [left; reflexivity|].
      right; exists id; split; [|exact Hin].
      destruct (get_optional (metadata doc) (js "job_posting_id"));
        try discriminate.
      injection Hid as ->; reflexivity.
Qed.

Lemma filter_nil_iff (docs : list (Document number)) :
  filter keep docs = [] <-> forall d : Document number, In d docs -> ~ scoped d.
Proof.
  split.
  - intros E d Hin Hs. apply post_filter_in_scope in Hs.
    assert (Hd : In d (filter keep docs)) by (apply filter_In; auto).
    rewrite E in Hd; exact Hd.
  - intros Hall. destruct (filter keep docs) as [|d l] eqn:E; [reflexivity|].
    assert (Hd : In d (filter keep docs)) by (rewrite E; left; reflexivity).
    apply filter_In in Hd; destruct Hd as [Hin Hk].
    apply post_filter_in_scope in Hk. destruct (Hall d Hin Hk).
Qed.

Lemma In_firstn {A} (x : A) (n : nat) (l : list A) :
  In x (firstn n l) -> In x l.
Proof.
  revert l; induction n as [|n IH]; intros [|y l]; simpl; try tauto.
  intros [-> | Hx]; [left; reflexivity | right; apply IH; exact Hx].
Qed.

Lemma firstn_nonempty {A} (n : nat) (l : list A) :
  l <> [] -> firstn (S n) l <> [].
Proof. destruct l; [congruence | discriminate]. Qed.

(** C2. When the store returns candidates and the filter keeps none of
    them, the retriever returns the first [limit] (20) candidates of the
    store's own answer, in the store's order, which is not the empty
    list, and writes the post-filter warning to the console. *)
Theorem fallback_returns_unfiltered_candidates (query : jsstring) :
  baseRetriever query <> [] ->
  (forall d : Document number, In d (baseRetriever query) -> ~ scoped d) ->
  retrieve query = (firstn limit (baseRetriever query), [PostFilterEmpty]) /\
  fst (retrieve query) <> [] /\
  (exists rest, baseRetriever query = fst (retrieve query) ++ rest) /\
  List.length (fst (retrieve query)) <= limit /\
  silent (snd (retrieve query)) = false.
Proof.
  intros Hne Hnone.
  apply filter_nil_iff in Hnone.
  assert (E : retrieve query
              = (firstn limit (baseRetriever query), [PostFilterEmpty])).
  { unfold getRelevantDocuments; rewrite Hnone; reflexivity. }
  rewrite E; cbn [fst snd].
  split; [reflexivity|].
  split; [apply firstn_nonempty; exact Hne|].
  split; [exists (skipn limit (baseRetriever query));
          symmetry; apply firstn_skipn|].
  split; [apply firstn_le_length | reflexivity].
Qed.

(** C3, as amended.  When the store returns no candidate, the retriever
    returns the empty list, and it does so through the fallback branch:
    the post-filter warning is written in that case too.  In general the
    warning is written exactly when the filter keeps nothing. *)
Theorem empty_store_returns_empty_with_warning (query : jsstring) :
  baseRetriever query = [] ->
  retrieve query = ([], [PostFilterEmpty]) /\
  (forall q, In PostFilterEmpty (snd (retrieve q)) <->
             filter keep (baseRetriever q) = []).
Proof.
  intros E; split.
  - unfold getRelevantDocuments; rewrite E; reflexivity.
  - intros q; unfold getRelevantDocuments.
    destruct (filter keep (baseRetriever q)) as [|d l]; simpl.
    + split; auto.
    + split; [intros [C | []]; discriminate | discriminate].
Qed.

(** C8. When some candidate is in scope, the retriever returns exactly
    the candidates in scope (owner equal to the scope's owner, document
    among the scope's documents, or any document when that list is
    empty), in the store's order, cut to the first [limit] (20); the
    result has at most [limit] elements and no warning is written. *)
Theorem scoped_candidates_are_returned (query : jsstring) :
  (exists d : Document number, In d (baseRetriever query) /\ scoped d) ->
  fst (retrieve query) = firstn limit (filter keep (baseRetriever query)) /\
  (forall d : Document number, keep d = true <-> scoped d) /\
  (forall d : Document number, In d (fst (retrieve query)) ->
             In d (baseRetriever query) /\ scoped d) /\
  fst (retrieve query) <> [] /\
  List.length (fst (retrieve query)) <= limit /\
  silent (snd (retrieve query)) = true /\
  ~ In PostFilterEmpty (snd (retrieve query)).
Proof.
  intros [d0 [Hin0 Hs0]].
  assert (Hk0 : In d0 (filter keep (baseRetriever query))).
  { apply filter_In; split; [exact Hin0 | apply post_filter_in_scope; exact Hs0]. }
  unfold getRelevantDocuments.
  destruct (filter keep (baseRetriever query)) as [|d l] eqn:E; [destruct Hk0|].
  cbn [fst snd].
  split; [reflexivity|].
  split; [apply post_filter_in_scope|].
  split.
  { intros x Hx.
    assert (Hx' : In x (filter keep (baseRetriever query))).
    { rewrite E. eapply In_firstn; exact Hx. }
    apply filter_In in Hx'; destruct Hx' as [Hx1 Hx2].
    split; [exact Hx1 | apply post_filter_in_scope; exact Hx2]. }
  split; [discriminate|].
  split; [apply firstn_le_length|].
  split; [reflexivity|].
  intros [C | []]; discriminate.
Qed.

End Facts.

Lemma foreign_store_out_of_scope (q : jsstring) (d : Document Z) :
  In d (foreign_store q) -> ~ in_scope (js "u1") [js "doc1"] d.
Proof.
  intros Hin. apply repeat_spec in Hin; subst d.
  intros [Ho _]; vm_compute in Ho; discriminate.
Qed.

Lemma fallback_returns_unfiltered_candidates_witness :
  getRelevantDocuments foreign_store (js "u1") [js "doc1"] (js "skills")
  = (repeat (chunk "u2" "doc9") 10, [PostFilterEmpty]).
Proof.
  refine (proj1 (fallback_returns_unfiltered_candidates
                   foreign_store (js "u1") [js "doc1"] (js "skills") _ _)).
  - discriminate.
  - apply foreign_store_out_of_scope.
Defined.

(** C3, as the claim states it, fails on the empty store: the result is
    empty and the console is not silent. *)
Lemma empty_store_is_not_silent :
  ~ (fst (getRelevantDocuments empty_store (js "u1") [js "doc1"] (js "skills")) = []
     /\ silent (snd (getRelevantDocuments empty_store (js "u1") [js "doc1"]
                       (js "skills"))) = true).
Proof. intros [_ C]; vm_compute in C; discriminate. Qed.

Lemma empty_store_returns_empty_with_warning_witness :
  getRelevantDocuments empty_store (js "u1") [js "doc1"] (js "skills")
  = ([], [PostFilterEmpty]).
Proof.
  exact (proj1 (empty_store_returns_empty_with_warning
                  empty_store (js "u1") [js "doc1"] (js "skills") eq_refl)).
Defined.

Lemma scoped_candidates_are_returned_witness :
  fst (getRelevantDocuments mixed_store (js "u1") [js "doc1"] (js "skills"))
  = [chunk "u1" "doc1"; chunk "u1" "doc1"; chunk "u1" "doc1"].
Proof.
  refine (proj1 (scoped_candidates_are_returned
                   mixed_store (js "u1") [js "doc1"] (js "skills") _)).
  exists (chunk "u1" "doc1"); split.
  - right; left; reflexivity.
  - split; [reflexivity|].
    right; exists (js "doc1"); split; [reflexivity | left; reflexivity].
Defined.

End RetrieverFacts.

(* ----------------------------------------------------------------- *)
(** ** The response parser *)

Module ParserFacts.
Import Parser Route.

Lemma spaces_then_sound {A} (k : jsstring -> option A) (s : jsstring) (r : A) :
  spaces_then k s = Some r ->
  exists ws rest,
    s = ws ++ rest /\ forallb isWhiteSpace ws = true /\ k rest = Some r.
Proof.
  induction s as [|c s IH]; simpl.
  - intros Hk; exists [], []; auto.
  - destruct (isWhiteSpace c) eqn:C.
    + destruct (spaces_then k s) as [r'|] eqn:E.
      * intros [= ->]. destruct (IH eq_refl) as [ws [rest [-> [W K]]]].
        exists (c :: ws), rest; simpl; rewrite C, W; auto.
      * intros Hk; exists [], (c :: s); auto.
    + intros Hk; exists [], (c :: s); auto.
Qed.

Lemma spaces_then_complete {A} (k : jsstring -> option A) (s : jsstring) :
  k s <> None -> spaces_then k s <> None.
Proof.
  destruct s as [|c s]; simpl; [auto|].
  destruct (isWhiteSpace c); [|auto].
  destruct (spaces_then k s); [discriminate | auto].
Qed.

Lemma closing_sound (s : jsstring) :
  closing s = Some tt ->
  exists ws post, s = ws ++ fence ++ post /\ forallb isWhiteSpace ws = true.
Proof.
  unfold closing; intros Hc.
  apply spaces_then_sound in Hc; destruct Hc as [ws [rest [-> [W K]]]].
  destruct (strip_prefix fence rest) as [post|] eqn:P; [|discriminate].
  apply strip_prefix_app in P; subst rest.
  exists ws, post; auto.
Qed.

Lemma closing_at_fence (post : jsstring) : closing (fence ++ post) = Some tt.
Proof. reflexivity. Qed.

Lemma lazy_capture_unfold (s : jsstring) :
  lazy_capture s =
  match closing s with
  | Some _ => Some []
  | None =>
      match s with
      | [] => None
      | c :: s' =>
          match lazy_capture s' with
          | Some cap => Some (c :: cap)
          | None => None
          end
      end
  end.
Proof. destruct s; reflexivity. Qed.

Lemma lazy_capture_sound (s cap : jsstring) :
  lazy_capture s = Some cap ->
  exists ws post,
    s = cap ++ ws ++ fence ++ post /\ forallb isWhiteSpace ws = true.
Proof.
  revert cap; induction s as [|c s IH]; intros cap;
    rewrite lazy_capture_unfold.
  - destruct (closing []) as [[]|] eqn:C; [|discriminate].
    intros [= <-]. apply closing_sound in C. exact C.
  - destruct (closing (c :: s)) as [[]|] eqn:C.
    + intros [= <-]. apply closing_sound in C. exact C.
    + destruct (lazy_capture s) as [cap'|]; [|discriminate].
      intros [= <-]. destruct (IH cap' eq_refl) as [ws [post [-> W]]].
      exists ws, post; auto.
Qed.

Lemma lazy_capture_complete (mid post : jsstring) :
  lazy_capture (mid ++ fence ++ post) <> None.
Proof.
  induction mid as [|c mid IH]; rewrite lazy_capture_unfold.
  - rewrite app_nil_l, closing_at_fence. discriminate.
  - destruct (closing ((c :: mid) ++ fence ++ post)); [discriminate|].
    rewrite <- app_comm_cons.
    destruct (lazy_capture (mid ++ fence ++ post)); [discriminate | auto].
Qed.

Lemma match_here_sound (opening s cap : jsstring) :
  match_here opening s = Some cap ->
  exists ws1 ws2 post,
    s = opening ++ ws1 ++ cap ++ ws2 ++ fence ++ post /\
    forallb isWhiteSpace ws1 = true /\ forallb isWhiteSpace ws2 = true.
Proof.
  unfold match_here.
  destruct (strip_prefix opening s) as [r|] eqn:P; [|discriminate].
  apply strip_prefix_app in P; subst s. intros Hm.
  apply spaces_then_sound in Hm; destruct Hm as [ws1 [rest [-> [W1 L]]]].
  apply lazy_capture_sound in L; destruct L as [ws2 [post [-> W2]]].
  exists ws1, ws2, post; auto.
Qed.

Lemma regex_match_unfold (opening s : jsstring) :
  regex_match opening s =
  match match_here opening s with
  | Some cap => Some cap
  | None =>
      match s with
      | [] => None
      | _ :: s' => regex_match opening s'
      end
  end.
Proof. destruct s; reflexivity. Qed.

Lemma regex_match_sound (opening s cap : jsstring) :
  regex_match opening s = Some cap ->
  exists pre ws1 ws2 post,
    s = pre ++ opening ++ ws1 ++ cap ++ ws2 ++ fence ++ post /\
    forallb isWhiteSpace ws1 = true /\ forallb isWhiteSpace ws2 = true.
Proof.
  assert (Here : forall s, match_here opening s = Some cap ->
    exists pre ws1 ws2 post,
      s = pre ++ opening ++ ws1 ++ cap ++ ws2 ++ fence ++ post /\
      forallb isWhiteSpace ws1 = true /\ forallb isWhiteSpace ws2 = true).
  { intros s0 Hm. apply match_here_sound in Hm.
    destruct Hm as [ws1 [ws2 [post Hm]]]. exists [], ws1, ws2, post; exact Hm. }
  induction s as [|c s IH]; rewrite regex_match_unfold.
  - destruct (match_here opening []) eqn:M; [|discriminate].
    intros [= ->]; apply Here; exact M.
  - destruct (match_here opening (c :: s)) eqn:M.
    + intros [= ->]; apply Here; exact M.
    + intros Hr. destruct (IH Hr) as [pre [ws1 [ws2 [post [-> W]]]]].
      exists (c :: pre), ws1, ws2, post; auto.
Qed.

Lemma regex_match_complete (opening pre mid post : jsstring) :
  regex_match opening (pre ++ opening ++ mid ++ fence ++ post) <> None.
Proof.
  assert (Here : match_here opening (opening ++ mid ++ fence ++ post) <> None).
  { unfold match_here. rewrite strip_prefix_self.
    apply spaces_then_complete, lazy_capture_complete. }
  induction pre as [|c pre IH]; rewrite regex_match_unfold.
  - rewrite app_nil_l.
    destruct (match_here opening (opening ++ mid ++ fence ++ post));
      [discriminate | congruence].
  - destruct (match_here opening ((c :: pre) ++ opening ++ mid ++ fence ++ post));
      [discriminate|].
    rewrite <- app_comm_cons. exact IH.
Qed.

Lemma fence_json_tag : fence_json = fence ++ js "json".
Proof. reflexivity. Qed.

End ParserFacts.

(* ----------------------------------------------------------------- *)
(** ** The request handler *)

Module RouteFacts.
Import Retriever Parser Normalizer Route.

Section Facts.
Context {number : Type} `{Engine number}.

(** The retriever writes nothing but its own two messages. *)
Lemma retriever_console (base : jsstring -> list (Document number))
    (user_id : jsstring) (ids : list jsstring) (q : jsstring)
    (e : console_event) :
  In e (snd (getRelevantDocuments base user_id ids q)) ->
  e = PostFilterEmpty \/ exists kept total, e = RetrieverFiltered kept total.
Proof.
  unfold getRelevantDocuments.
  destruct (filter (post_filter user_id ids) (base q)); cbn [snd].
  - intros [<- | []]; left; reflexivity.
  - intros [<- | []]; right; eauto.
Qed.

(** C7. When the agent's answer does not parse, the request ends with
    the parse-failure payload, which carries the raw answer and the
    message of the parse error; the [role_insights] table is left as it
    was, and neither the normalizer nor the insert is reached: the
    console shows the parsing error and none of the messages written
    after a successful parse. *)
Theorem parse_failure_fails_the_request
    (w : World number) (req : Request) (table : list (Row number))
    (user_id : jsstring) (job_posting_ids : list jsstring)
    (doc : Document number) (docs : list (Document number))
    (raw : jsstring) (parseError : exn) :
  req_user_id req = Some user_id -> user_id <> [] ->
  req_job_posting_ids req = Some job_posting_ids -> job_posting_ids <> [] ->
  existingDocs w user_id = Return (doc :: docs) ->
  agent_answer w = Return raw ->
  parse_insights raw = Throw parseError ->
  exists console,
    POST w req table
    = (ParseFailed raw (exn_message parseError), table, console) /\
    In JsonParsingError console /\
    ~ In ParsedJson console /\
    ~ In ValidatedInsightsLog console /\
    ~ In StoredInsights console.
Proof.
  intros Hu Hu0 Hj Hj0 Hd Ha Hp.
  unfold POST. rewrite Hu, Hj, Hd, Ha.
  destruct user_id as [|c u]; [congruence|].
  destruct job_posting_ids as [|j js0]; [congruence|].
  unfold finish. rewrite Hp.
  eexists; split; [reflexivity|].
  assert (Hs : forall e,
             In e (flat_map
                     (fun q => snd (getRelevantDocuments (similaritySearch w)
                                      (c :: u) (j :: js0) q))
                     (agent_queries w)) ->
             e = PostFilterEmpty \/
             exists kept total, e = RetrieverFiltered kept total).
  { intros e He. apply in_flat_map in He. destruct He as [q [_ He]].
    eapply retriever_console; exact He. }
  assert (Hno : forall e,
             e <> JsonParsingError ->
             e <> PostFilterEmpty ->
             (forall kept total, e <> RetrieverFiltered kept total) ->
             e <> ExtractionRequest -> (forall n, e <> FoundDocuments n) ->
             e <> SampleDocumentMetadata -> e <> CreatingAgent ->
             e <> InvokingAgent -> e <> AgentCompleted ->
             e <> ExtractedContent ->
             ~ In e ([ExtractionRequest; FoundDocuments (S (List.length docs));
                      SampleDocumentMetadata; CreatingAgent; InvokingAgent]
                     ++ flat_map
                          (fun q => snd (getRelevantDocuments
                                           (similaritySearch w)
                                           (c :: u) (j :: js0) q))
                          (agent_queries w)
                     ++ [AgentCompleted; ExtractedContent]
                     ++ [JsonParsingError])).
  { intros e N1 N2 N3 N4 N5 N6 N7 N8 N9 N10 Hin.
    rewrite !in_app_iff in Hin. simpl in Hin.
    destruct Hin as [Hin | [Hin | [Hin | Hin]]].
    - destruct Hin as [E | [E | [E | [E | [E | []]]]]];
        try (symmetry in E; contradiction).
      symmetry in E; exact (N5 _ E).
    - destruct (Hs e Hin) as [E | [k [t E]]]; [contradiction | exact (N3 _ _ E)].
    - destruct Hin as [E | [E | []]]; symmetry in E; contradiction.
    - destruct Hin as [E | []]; symmetry in E; contradiction. }
  split.
  { rewrite !in_app_iff. right; right; right. left; reflexivity. }
  split; [|split]; apply Hno; try discriminate; intros; discriminate.
Qed.

End Facts.

Lemma parse_failure_fails_the_request_witness :
  exists console,
    POST prose_world sample_request []
    = (ParseFailed prose_example (exn_message Reference.unexpected_token),
       [], console) /\
    In JsonParsingError console /\
    ~ In ParsedJson console /\
    ~ In ValidatedInsightsLog console /\
    ~ In StoredInsights console.
Proof.
  refine (parse_failure_fails_the_request prose_world sample_request []
            (js "u1") [js "doc1"] (chunk "u1" "doc1") []
            prose_example Reference.unexpected_token
            eq_refl _ eq_refl _ eq_refl eq_refl _).
  - discriminate.
  - discriminate.
  - vm_compute; reflexivity.
Defined.

End RouteFacts.

(* ----------------------------------------------------------------- *)
(** ** The insight normalizer *)

Module NormalizerFacts.
Import Normalizer.

Section Facts.
Context {number : Type} `{Engine number}.

Lemma bind_Return {A B} (c : outcome A) (k : A -> outcome B) (b : B) :
  bind c k = Return b -> exists a, c = Return a /\ k a = Return b.
Proof. destruct c as [a|e]; simpl; [eauto | discriminate]. Qed.

(** *** String conversion *)

Lemma join_convertible (items : list (value number)) :
  Forall (fun x => convertible x = true -> exists s, ToString x = Return s)
         items ->
  forallb convertible items = true ->
  exists s, join ToString items = Return s.
Proof.
  induction 1 as [|x l Hx Hl IH]; simpl; [eauto|].
  rewrite andb_true_iff; intros [Cx Cl].
  assert (Hs : exists s, match x with
                         | VUndefined | VNull => Return []
                         | _ => ToString x
                         end = Return s).
  { destruct x; eauto. }
  destruct Hs as [s ->]; simpl.
  destruct l as [|y l']; [eauto|].
  destruct (IH Cl) as [r Hr].
  change (join ToString (y :: l')) with (join ToString (y :: l')) in Hr.
  simpl in Hr |- *. rewrite Hr; simpl; eauto.
Qed.

(** [String] returns on every convertible value. *)
Lemma ToString_convertible (v : value number) :
  convertible v = true -> exists s, ToString v = Return s.
Proof.
  induction v as [ | | b | n | s | items IH | props] using value_array_ind;
    simpl; eauto.
  - destruct b; eauto.
  - intros C; apply join_convertible; assumption.
  - destruct (has_own (js "toString") props); [discriminate | eauto].
Qed.

Lemma join_not_convertible (items : list (value number)) :
  Forall (fun x => convertible x = false -> ToString x = Throw cannot_convert)
         items ->
  forallb convertible items = false ->
  join ToString items = Throw cannot_convert.
Proof.
  induction 1 as [|x l Hx Hl IH]; [discriminate|].
  cbn [forallb]. intros C.
  destruct (convertible x) eqn:Cx.
  - destruct (ToString_convertible x Cx) as [s Hs].
    assert (Hs' : match x with
                  | VUndefined | VNull => Return []
                  | _ => ToString x
                  end = Return match x with
                               | VUndefined | VNull => []
                               | _ => s
                               end)
      by (destruct x; auto).
    destruct l as [|y l']; [discriminate|].
    specialize (IH C).
    change (join ToString (x :: y :: l'))
      with (s0 <- match x with
                  | VUndefined | VNull => Return []
                  | _ => ToString x
                  end ;;
            r <- join ToString (y :: l') ;; Return (s0 ++ js "," ++ r)).
    rewrite Hs', IH. reflexivity.
  - specialize (Hx eq_refl).
    assert (Hx' : match x with
                  | VUndefined | VNull => Return []
                  | _ => ToString x
                  end = Throw cannot_convert)
      by (destruct x; try discriminate; exact Hx).
    change (join ToString (x :: l))
      with (s0 <- match x with
                  | VUndefined | VNull => Return []
                  | _ => ToString x
                  end ;;
            match l with
            | [] => Return s0
            | _ :: _ => r <- join ToString l ;; Return (s0 ++ js "," ++ r)
            end).
    rewrite Hx'. reflexivity.
Qed.

(** [String] throws on every other value. *)
Lemma ToString_not_convertible (v : value number) :
  convertible v = false -> ToString v = Throw cannot_convert.
Proof.
  induction v as [ | | b | n | s | items IH | props] using value_array_ind;
    simpl; try discriminate.
  - intros C; apply join_not_convertible; assumption.
  - destruct (has_own (js "toString") props); [reflexivity | discriminate].
Qed.

(** *** [normalizedArray] *)

(** The callback of [map] is [String] followed by [trim]. *)
Lemma mapM_callback (items : list (value number)) :
  mapM (fun item =>
          match item with
          | VStr s => Return (trim s)
          | _ => s <- ToString item ;; Return (trim s)
          end) items
  = (strs <- mapM ToString items ;; Return (map trim strs)).
Proof.
  induction items as [|x items IH]; [reflexivity|].
  cbn [mapM]. rewrite IH.
  assert (Hx : match x with
               | VStr s => Return (trim s)
               | _ => s <- ToString x ;; Return (trim s)
               end = (s <- ToString x ;; Return (trim s)))
    by (destruct x; reflexivity).
  rewrite Hx.
  destruct (ToString x) as [s|e]; [|reflexivity].
  cbn [bind].
  destruct (mapM ToString items) as [strs|e]; reflexivity.
Qed.

Lemma mapM_convertible (items : list (value number)) :
  forallb convertible items = true ->
  exists strs, mapM ToString items = Return strs.
Proof.
  induction items as [|x items IH]; simpl; [eauto|].
  rewrite andb_true_iff; intros [Cx Ci].
  destruct (ToString_convertible x Cx) as [s ->].
  destruct (IH Ci) as [strs ->]. simpl; eauto.
Qed.

Lemma filter_nonempty (l : list jsstring) :
  Forall (fun s => s <> []) (filter nonempty l).
Proof.
  apply Forall_forall; intros s Hs.
  apply filter_In in Hs; destruct Hs as [_ Hs].
  destruct s; [discriminate | discriminate].
Qed.

(** Whatever [normalizedArray] returns holds no empty string. *)
Lemma normalizedArray_elements (v : value number) (l : list jsstring) :
  normalizedArray v = Return l -> Forall (fun s => s <> []) l.
Proof.
  destruct v; simpl; try (intros [= <-]; constructor).
  - destruct (trim s) as [|c t] eqn:T; simpl; intros [= <-]; constructor;
      [discriminate | constructor].
  - intros Hb. apply bind_Return in Hb. destruct Hb as [strs [_ [= <-]]].
    apply filter_nonempty.
Qed.

(** It returns on every coercible value. *)
Lemma normalizedArray_coercible (v : value number) :
  coercible v = true -> exists l, normalizedArray v = Return l.
Proof.
  destruct v; simpl; eauto.
  - destruct (nonempty (trim s)); eauto.
  - intros C. rewrite mapM_callback.
    destruct (mapM_convertible items C) as [strs ->]. simpl; eauto.
Qed.

Lemma mapM_not_convertible (items : list (value number)) :
  forallb convertible items = false ->
  mapM ToString items = Throw cannot_convert.
Proof.
  induction items as [|x items IH]; [discriminate|].
  cbn [forallb mapM]. intros C.
  destruct (convertible x) eqn:Cx.
  - destruct (ToString_convertible x Cx) as [s ->].
    rewrite (IH C). reflexivity.
  - rewrite (ToString_not_convertible x Cx). reflexivity.
Qed.

(** It throws on every other value: an array holding, at any depth of
    nested arrays, an object with a [toString] key. *)
Lemma normalizedArray_not_coercible (v : value number) :
  coercible v = false -> normalizedArray v = Throw cannot_convert.
Proof.
  destruct v; try discriminate.
  intros C. unfold normalizedArray.
  rewrite mapM_callback, (mapM_not_convertible items C). reflexivity.
Qed.

(** C4, as amended.  On an array all of whose elements have a string
    form, the coercion returns those forms trimmed, the empty ones
    dropped, in order and with duplicates; on a string it returns the
    singleton of the trimmed string when that is not empty and the
    empty list otherwise, so also for a string of white space; on any
    other value it returns the empty list. *)
Theorem normalizedArray_cases (v : value number) :
  match v with
  | VArr items =>
      forall strs, mapM ToString items = Return strs ->
                   normalizedArray v = Return (filter nonempty (map trim strs))
  | VStr s =>
      normalizedArray v = Return (if nonempty (trim s) then [trim s] else [])
  | _ => normalizedArray v = Return []
  end.
Proof.
  destruct v; try reflexivity.
  - simpl. destruct (nonempty (trim s)); reflexivity.
  - intros strs Hs. unfold normalizedArray.
    rewrite mapM_callback, Hs. reflexivity.
Qed.

(** *** [validatedInsights] *)

Lemma or_default_well_formed (arr : list jsstring) (sentinel : jsstring) :
  sentinel <> [] -> Forall (fun s => s <> []) arr ->
  well_formed (or_default arr sentinel).
Proof.
  intros Hs Ha; destruct arr as [|a arr]; simpl; split;
    try discriminate; auto.
Qed.

Lemma list_field_well_formed (raw : value number) (sentinel : jsstring)
    (l : list jsstring) :
  sentinel <> [] -> list_field raw sentinel = Return l -> well_formed l.
Proof.
  intros Hs Hl. apply bind_Return in Hl. destruct Hl as [arr [Ha [= <-]]].
  apply or_default_well_formed; [exact Hs|].
  eapply normalizedArray_elements; exact Ha.
Qed.

Lemma list_field_coercible (raw : value number) (sentinel : jsstring) :
  coercible raw = true -> exists l, list_field raw sentinel = Return l.
Proof.
  intros C. unfold list_field.
  destruct (normalizedArray_coercible raw C) as [arr ->]. simpl; eauto.
Qed.

Lemma not_specified_nonempty : not_specified <> [].
Proof. discriminate. Qed.

Lemma responsibilities_not_specified_nonempty :
  responsibilities_not_specified <> [].
Proof. discriminate. Qed.

(** Every record the normalizer returns has well-formed list fields:
    none is empty and none holds an empty string. *)
Lemma validatedInsights_lists (insights : value number) (now : jsstring)
    (ids : list jsstring) (r : ValidatedInsights number) :
  validatedInsights insights now ids = Return r -> lists_well_formed r.
Proof.
  unfold validatedInsights; intros Hv.
  repeat match type of Hv with
         | bind _ _ = Return _ =>
             let x := fresh "x" in
             let E := fresh "E" in
             apply bind_Return in Hv; destruct Hv as [x [E Hv]]
         end.
  injection Hv as <-. unfold lists_well_formed; cbn.
  pose proof not_specified_nonempty as N.
  pose proof responsibilities_not_specified_nonempty as R.
  repeat split;
    match goal with
    | |- _ <> [] => idtac
    | |- Forall _ _ => idtac
    end;
    match goal with
    | E : list_field _ _ = Return ?l |- ?l <> [] =>
        eapply list_field_well_formed in E; [apply E | assumption]
    | E : list_field _ _ = Return ?l |- Forall _ ?l =>
        eapply list_field_well_formed in E; [apply E | assumption]
    end.
Qed.

(** The normalizer returns a record, with well-formed list fields, on
    every object whose list fields are coercible. *)
Lemma validatedInsights_returns (props : list (jsstring * value number))
    (now : jsstring) (ids : list jsstring) :
  forallb coercible (raw_list_fields (VObj props)) = true ->
  exists r, validatedInsights (VObj props) now ids = Return r /\
            lists_well_formed r.
Proof.
  intros C.
  assert (R : exists r, validatedInsights (VObj props) now ids = Return r).
  { unfold raw_list_fields in C. cbn [forallb] in C.
    repeat (apply andb_true_iff in C;
            let C1 := fresh "C" in destruct C as [C1 C]).
    unfold validatedInsights, skill, get.
    cbn [bind].
    repeat match goal with
           | Hc : coercible ?raw = true
             |- context [list_field ?raw ?sentinel] =>
               let l := fresh "l" in
               let E := fresh "E" in
               destruct (list_field_coercible raw sentinel Hc) as [l E];
               rewrite E; clear Hc; cbn [bind]
           end.
    eauto. }
  destruct R as [r Hr]. exists r; split; [exact Hr|].
  eapply validatedInsights_lists; exact Hr.
Qed.

(** C9. Normalizing the empty mapping gives [core_responsibilities] its
    own sentinel and every other list field the common sentinel. *)
Theorem empty_mapping_sentinels (now : jsstring) (ids : list jsstring) :
  exists r,
    validatedInsights (VObj []) now ids = Return r /\
    core_responsibilities r = [js "Responsibilities not specified"] /\
    about_section r = [js "Not specified in posting"] /\
    responsibilities_section r = [js "Not specified in posting"] /\
    qualifications_section r = [js "Not specified in posting"] /\
    technical (required_skills r) = [js "Not specified in posting"] /\
    soft_skills (required_skills r) = [js "Not specified in posting"] /\
    tools_technologies r = [js "Not specified in posting"] /\
    key_success_metrics r = [js "Not specified in posting"] /\
    hiring_signals r = [js "Not specified in posting"] /\
    collaboration_aspects r = [js "Not specified in posting"].
Proof.
  eexists; split; [reflexivity|].
  repeat split; reflexivity.
Qed.

Lemma get_Return (o v : value number) (key : jsstring) :
  get o key = Return v -> v = get_optional o key.
Proof. destruct o; simpl; congruence. Qed.

(** C5, as amended.  The normalizer does not check the seniority level
    against the schema's five values: the field is the raw value
    whenever that is truthy, and ["mid"] when it is absent, [null],
    [false], zero or the empty string.  So the result is one of the five
    values when the raw value is one of them or is not truthy. *)
Theorem seniority_level_is_raw_or_mid (insights : value number)
    (now : jsstring) (ids : list jsstring) (r : ValidatedInsights number) :
  validatedInsights insights now ids = Return r ->
  let raw := get_optional insights (js "seniority_level") in
  (ToBoolean raw = true -> seniority_level r = raw) /\
  (ToBoolean raw = false -> seniority_level r = VStr (js "mid")) /\
  (enumerated_seniority raw = true \/ ToBoolean raw = false ->
   enumerated_seniority (seniority_level r) = true).
Proof.
  unfold validatedInsights; intros Hv.
  repeat match type of Hv with
         | bind _ _ = Return _ =>
             let x := fresh "x" in
             let E := fresh "E" in
             apply bind_Return in Hv; destruct Hv as [x [E Hv]]
         end.
  injection Hv as <-. cbn [seniority_level].
  match goal with
  | E : get insights (js "seniority_level") = Return ?x |- _ =>
      apply get_Return in E; subst x
  end.
  unfold or_else.
  destruct (ToBoolean (get_optional insights (js "seniority_level"))) eqn:T;
    cbn zeta.
  - split; [reflexivity|]. split; [discriminate|].
    intros [Q | Q]; [exact Q | discriminate].
  - split; [discriminate|]. split; [reflexivity|].
    intros _; reflexivity.
Qed.

End Facts.

(** C1. The normalizer is not total.  An answer whose [about_section]
    array holds an object with a [toString] key is a JSON object the
    parser accepts; [String] throws a TypeError on that element, so
    [validatedInsights] throws instead of returning a record, and the
    handler answers with the error payload and stores nothing. *)
Theorem normalizer_throws_on_toString_key :
  Parser.parse_insights toString_text = Return toString_insights /\
  (forall (number : Type) (E : Engine number) (now : jsstring)
          (ids : list jsstring),
     validatedInsights (number := number) toString_insights now ids
     = Throw cannot_convert) /\
  (forall (w : Route.World Z) (user_id : jsstring) (ids : list jsstring)
          (table : list (Route.Row Z)),
     Route.finish w user_id ids toString_text table
     = (Route.ExtractionFailed cannot_convert, table,
        [ParsedJson; ExtractionError])).
Proof.
  assert (P : Parser.parse_insights toString_text
              = Return (@toString_insights Z)) by (vm_compute; reflexivity).
  split; [exact P|].
  split.
  - intros number E now ids. unfold validatedInsights.
    change (get toString_insights (js "about_section"))
      with (Return (VArr [VObj [(js "toString", VStr (js "x"))]]
                    : value number)).
    cbn [bind]. unfold list_field.
    rewrite normalizedArray_not_coercible; reflexivity.
  - intros w user_id ids table.
    unfold Route.finish. rewrite P. reflexivity.
Qed.

(** The third and fourth examples of the specification. *)
Example tools_example_coerced :
  normalizedArray tools_example = Return [js "Python"; js "42"].
Proof. vm_compute; reflexivity. Qed.

Example single_paragraph_promoted :
  normalizedArray (VStr (js "Single paragraph.") : value Z)
  = Return [js "Single paragraph."].
Proof. vm_compute; reflexivity. Qed.

(** C4, as the claim states it, promotes every non-empty string to a
    singleton; the code returns the empty list for a string of white
    space. *)
Lemma blank_string_is_not_promoted :
  normalizedArray (VStr (js "   ") : value Z)
  <> coercion_as_specified (VStr (js "   ")).
Proof. vm_compute; discriminate. Qed.

Lemma normalizedArray_cases_witness :
  normalizedArray tools_example = Return [js "Python"; js "42"].
Proof.
  exact (normalizedArray_cases tools_example
           [js "  Python "; []; js "42"] eq_refl).
Defined.

(** C5, as the claim states it, fails: a seniority level outside the
    schema is stored as it came. *)
Lemma seniority_level_is_not_validated :
  ~ (forall (insights : value Z) now ids r,
       validatedInsights insights now ids = Return r ->
       enumerated_seniority (seniority_level r) = true).
Proof.
  intros C.
  specialize (C principal_insights (js "now") [js "doc1"] _ eq_refl).
  vm_compute in C; discriminate.
Qed.

Lemma seniority_level_is_raw_or_mid_witness :
  exists r,
    validatedInsights (VObj [] : value Z) (js "now") [js "doc1"] = Return r /\
    enumerated_seniority (seniority_level r) = true.
Proof.
  eexists; split; [reflexivity|].
  refine (proj2 (proj2 (seniority_level_is_raw_or_mid
                          (VObj []) (js "now") [js "doc1"] _ eq_refl)) _).
  right; reflexivity.
Defined.

(** The scenario of the specification, through the handler. *)
Example scenario_extracted :
  exists validated table console,
    Route.POST scenario_world sample_request []
    = (Route.Extracted (js "row-1") validated, table, console) /\
    List.length table = 1 /\
    role_title validated = VStr (js "Engineer") /\
    tools_technologies validated = [js "Go"; js "Go"] /\
    seniority_level validated = VStr (js "mid") /\
    industry_context validated = VStr (js "General") /\
    core_responsibilities validated = [js "Responsibilities not specified"] /\
    about_section validated = [js "Not specified in posting"].
Proof.
  do 3 eexists. split; [vm_compute; reflexivity|].
  repeat split; reflexivity.
Qed.

End NormalizerFacts.

(* ----------------------------------------------------------------- *)
(** ** The two copies of [normalizedArray] *)

Module LegacyFacts.
Import Normalizer NormalizerFacts.

Section Facts.
Context {number : Type} `{Engine number}.

Lemma mapM_legacy_callback (items : list (value number)) :
  mapM (fun item =>
          match item with
          | VStr s => Return s
          | _ => ToString item
          end) items
  = mapM ToString items.
Proof.
  induction items as [|x items IH]; [reflexivity|].
  cbn [mapM]. rewrite IH. destruct x; reflexivity.
Qed.

Lemma filter_trim_filter (l : list jsstring) :
  filter nonempty (map trim (filter nonempty l))
  = filter nonempty (map trim l).
Proof.
  induction l as [|s l IH]; [reflexivity|].
  destruct s as [|c s]; simpl; [exact IH|].
  rewrite IH; reflexivity.
Qed.


End Facts.


End LegacyFacts.

(* ================================================================= *)
(** * Further properties of the routes *)

(* ----------------------------------------------------------------- *)
(** ** The scoped retriever, for every store *)

Module RetrieverLaws.
Import Retriever RetrieverFacts.

Lemma firstn_subset {A} (x : A) (n : nat) (l : list A) :
  In x (firstn n l) -> In x l.
Proof.
  revert l; induction n as [|n IH]; intros [|y l]; simpl; try tauto.
  intros [-> | Hx]; [left; reflexivity | right; apply IH; exact Hx].
Qed.

Lemma firstn_nil_iff {A} (n : nat) (l : list A) :
  firstn (S n) l = [] <-> l = [].
Proof. destruct l; simpl; split; congruence. Qed.

Section Laws.
Context {number : Type} `{Engine number}.
Variable baseRetriever : jsstring -> list (Document number).
Variable user_id : jsstring.
Variable job_posting_ids : list jsstring.

Local Abbreviation keep := (post_filter user_id job_posting_ids).
Local Abbreviation retrieve :=
  (getRelevantDocuments baseRetriever user_id job_posting_ids).

(** X1. Whatever the store answers, the retriever returns at most
    [limit] documents, all of them among the store's candidates and in
    the store's order; it returns nothing only when the store answered
    nothing; it writes exactly one console message; and when that
    message is not the warning, every returned document is in scope. *)
Theorem retrieved_documents_come_from_the_store (query : jsstring) :
  List.length (fst (retrieve query)) <= limit /\
  (forall d, In d (fst (retrieve query)) -> In d (baseRetriever query)) /\
  ((exists rest, baseRetriever query = fst (retrieve query) ++ rest) \/
   (exists rest,
      filter keep (baseRetriever query) = fst (retrieve query) ++ rest)) /\
  (fst (retrieve query) = [] <-> baseRetriever query = []) /\
  List.length (snd (retrieve query)) = 1 /\
  (silent (snd (retrieve query)) = true ->
   forall d : Document number,
     In d (fst (retrieve query)) -> in_scope user_id job_posting_ids d).
Proof.
  unfold getRelevantDocuments.
  destruct (filter keep (baseRetriever query)) as [|d0 l] eqn:E; cbn [fst snd].
  - split; [apply firstn_le_length|].
    split; [intros d; apply firstn_subset|].
    split; [left; exists (skipn limit (baseRetriever query));
            symmetry; apply firstn_skipn|].
    split; [apply firstn_nil_iff|].
    split; [reflexivity|].
    discriminate.
  - split; [apply firstn_le_length|].
    assert (Sub : forall d, In d (firstn limit (d0 :: l)) ->
                            In d (baseRetriever query) /\ keep d = true).
    { intros d Hd. apply firstn_subset in Hd. rewrite <- E in Hd.
      apply filter_In in Hd. exact Hd. }
    split; [intros d Hd; apply (Sub d Hd)|].
    split; [right; exists (skipn limit (d0 :: l));
            symmetry; apply firstn_skipn|].
    split.
    { split; [discriminate|].
      intros Hnil. rewrite Hnil in E. discriminate. }
    split; [reflexivity|].
    intros _ d Hd. apply post_filter_in_scope. apply (Sub d Hd).
Qed.

End Laws.

End RetrieverLaws.

(* ----------------------------------------------------------------- *)
(** ** The response parser: what is cut out of a fenced answer *)

Module ParserLaws.
Import Parser ParserFacts.

Lemma spaces_then_skip {A} (k : jsstring -> option A) (ws s : jsstring)
    (r : A) :
  forallb isWhiteSpace ws = true ->
  spaces_then k s = Some r -> spaces_then k (ws ++ s) = Some r.
Proof.
  intros W Hs. induction ws as [|c ws IH]; [exact Hs|].
  simpl in W. apply andb_true_iff in W. destruct W as [Wc W].
  simpl. rewrite Wc, (IH W). reflexivity.
Qed.

Lemma spaces_then_clean {A} (k : jsstring -> option A) (s : jsstring) :
  starts_clean s -> spaces_then k s = k s.
Proof.
  destruct s as [|c s]; simpl; [reflexivity|].
  intros ->; reflexivity.
Qed.

Lemma closing_unfold (c : code_unit) (s : jsstring) :
  isWhiteSpace c = true -> closing s = Some tt -> closing (c :: s) = Some tt.
Proof.
  intros Wc Hc. unfold closing in *. cbn [spaces_then].
  rewrite Wc, Hc. reflexivity.
Qed.

(** *** The capture carries no surrounding white space and no fence *)

Lemma capture_starts_clean (r cap : jsstring) :
  spaces_then lazy_capture r = Some cap -> starts_clean cap.
Proof.
  revert cap; induction r as [|c s IH]; intros cap; cbn [spaces_then].
  - rewrite lazy_capture_unfold.
    destruct (closing []); [intros [= <-]; exact I | discriminate].
  - destruct (isWhiteSpace c) eqn:Wc.
    + destruct (spaces_then lazy_capture s) as [cap'|] eqn:E.
      * intros [= <-]. apply IH; reflexivity.
      * assert (Ls : lazy_capture s = None).
        { destruct (lazy_capture s) eqn:L; [|reflexivity].
          exfalso. apply (spaces_then_complete lazy_capture s);
            [rewrite L; discriminate | exact E]. }
        rewrite lazy_capture_unfold, Ls.
        destruct (closing (c :: s)); [|discriminate].
        intros [= <-]; exact I.
    + rewrite lazy_capture_unfold.
      destruct (closing (c :: s)); [intros [= <-]; exact I|].
      destruct (lazy_capture s); [|discriminate].
      intros [= <-]. exact Wc.
Qed.

Lemma lazy_capture_nil (s : jsstring) :
  lazy_capture s = Some [] -> closing s = Some tt.
Proof.
  rewrite lazy_capture_unfold.
  destruct (closing s) as [[]|]; [reflexivity|].
  destruct s as [|c s]; [discriminate|].
  destruct (lazy_capture s); discriminate.
Qed.

Lemma starts_clean_snoc (l : jsstring) (x : code_unit) :
  l <> [] -> starts_clean l -> starts_clean (l ++ [x]).
Proof. destruct l; [congruence | auto]. Qed.

Lemma capture_ends_clean (s cap : jsstring) :
  lazy_capture s = Some cap -> ends_clean cap.
Proof.
  unfold ends_clean.
  revert cap; induction s as [|c s IH]; intros cap;
    rewrite lazy_capture_unfold.
  - destruct (closing []); [intros [= <-]; exact I | discriminate].
  - destruct (closing (c :: s)) eqn:C; [intros [= <-]; exact I|].
    destruct (lazy_capture s) as [cap'|] eqn:L; [|discriminate].
    intros [= <-]. simpl rev.
    destruct cap' as [|y cap'].
    + simpl. destruct (isWhiteSpace c) eqn:Wc; [|reflexivity].
      apply lazy_capture_nil in L.
      rewrite (closing_unfold c s Wc L) in C. discriminate.
    + apply starts_clean_snoc; [|apply IH; reflexivity].
      simpl. intros N. apply app_eq_nil in N. destruct N; discriminate.
Qed.

Lemma capture_has_no_fence (s cap : jsstring) :
  lazy_capture s = Some cap -> ~ contains fence cap.
Proof.
  revert cap; induction s as [|c s IH]; intros cap L.
  - rewrite lazy_capture_unfold in L.
    destruct (closing []); [|discriminate]. injection L as <-.
    intros [pre [post E]]. destruct pre; discriminate.
  - pose proof L as L0. rewrite lazy_capture_unfold in L.
    destruct (closing (c :: s)) eqn:C.
    { injection L as <-. intros [pre [post E]]. destruct pre; discriminate. }
    destruct (lazy_capture s) as [cap'|] eqn:L'; [|discriminate].
    injection L as <-. intros [pre [post E]].
    destruct pre as [|y pre].
    + (* the capture would begin with a fence, where the tail matches *)
      apply lazy_capture_sound in L0.
      destruct L0 as [ws [post' [Es _]]].
      rewrite E, app_nil_l, <- app_assoc in Es.
      rewrite Es, closing_at_fence in C. discriminate.
    + injection E as _ E.
      apply (IH cap' eq_refl). exists pre, post. exact E.
Qed.

Lemma regex_match_here (opening s cap : jsstring) :
  regex_match opening s = Some cap ->
  exists r, spaces_then lazy_capture r = Some cap.
Proof.
  induction s as [|c s IH]; rewrite regex_match_unfold.
  - destruct (match_here opening []) eqn:M; [|discriminate].
    intros [= ->]. unfold match_here in M.
    destruct (strip_prefix opening []) as [r|]; [eauto | discriminate].
  - destruct (match_here opening (c :: s)) eqn:M.
    + intros [= ->]. unfold match_here in M.
      destruct (strip_prefix opening (c :: s)) as [r|]; [eauto | discriminate].
    + exact IH.
Qed.

(** X2. The text the parser cuts out of a fenced answer has no white
    space at either end and holds no fence: it stops before the first
    closing fence. *)
Theorem interior_is_trimmed_and_fence_free (raw interior : jsstring) :
  jsonMatch raw = Some interior ->
  starts_clean interior /\ ends_clean interior /\ ~ contains fence interior.
Proof.
  unfold jsonMatch. intros M.
  assert (R : exists r, spaces_then lazy_capture r = Some interior).
  { destruct (regex_match fence_json raw) as [cap|] eqn:M1.
    - injection M as <-. eapply regex_match_here; exact M1.
    - eapply regex_match_here; exact M. }
  destruct R as [r Hr].
  split; [eapply capture_starts_clean; exact Hr|].
  apply spaces_then_sound in Hr. destruct Hr as [ws [rest [_ [_ L]]]].
  split; [eapply capture_ends_clean; exact L
         | eapply capture_has_no_fence; exact L].
Qed.

(** *** Fencing and unfencing *)

Lemma forallb_app_true {A} (p : A -> bool) (a b : list A) :
  forallb p (a ++ b) = true <-> forallb p a = true /\ forallb p b = true.
Proof. rewrite forallb_app, andb_true_iff. tauto. Qed.

(** A string is its trimmed form between two runs of white space. *)
Lemma trim_split (s : jsstring) :
  exists lead trail,
    s = lead ++ trim s ++ trail /\
    forallb isWhiteSpace lead = true /\ forallb isWhiteSpace trail = true.
Proof.
  destruct (trimStart_split s) as [lead [E1 W1]].
  destruct (trimStart_split (rev (trimStart s))) as [tr [E2 W2]].
  exists lead, (rev tr). split; [|split; [exact W1|]].
  - unfold trim, trimEnd. rewrite E1 at 1. f_equal.
    rewrite <- (rev_involutive (trimStart s)) at 1.
    rewrite E2 at 1. rewrite rev_app_distr. reflexivity.
  - rewrite forallb_forall in *. intros x Hx. apply W2.
    apply in_rev. exact Hx.
Qed.

Lemma trim_ends_clean (s : jsstring) : ends_clean (trim s).
Proof.
  unfold ends_clean, trim, trimEnd. rewrite rev_involutive.
  apply trimStart_clean.
Qed.

Lemma trim_starts_clean (s : jsstring) : starts_clean (trim s).
Proof. unfold trim. apply trimEnd_clean, trimStart_clean. Qed.

(** The first character that is not white space, when there is one. *)
Lemma trimStart_head (core tail : jsstring) :
  (exists x, In x core /\ isWhiteSpace x = false) ->
  exists y rest, trimStart (core ++ tail) = y :: rest /\ In y core.
Proof.
  induction core as [|c core IH]; intros [x [Hin Hx]]; [destruct Hin|].
  simpl. destruct (isWhiteSpace c) eqn:Wc.
  - destruct Hin as [-> | Hin]; [congruence|].
    destruct IH as [y [rest [E Hy]]]; [eauto|].
    exists y, rest; split; [exact E | right; exact Hy].
  - exists c, (core ++ tail); split; [reflexivity | left; reflexivity].
Qed.

Lemma trimStart_spaces (ws s : jsstring) :
  forallb isWhiteSpace ws = true -> trimStart (ws ++ s) = trimStart s.
Proof.
  induction ws as [|c ws IH]; [reflexivity|].
  simpl. intros W. apply andb_true_iff in W. destruct W as [-> W].
  apply IH; exact W.
Qed.

Lemma ends_clean_last (core : jsstring) :
  core <> [] -> ends_clean core ->
  exists x, In x core /\ isWhiteSpace x = false.
Proof.
  unfold ends_clean. intros Hne Hc.
  destruct (rev core) as [|x t] eqn:R.
  - apply (f_equal (@rev code_unit)) in R. rewrite rev_involutive in R.
    contradiction.
  - exists x; split; [|exact Hc].
    apply in_rev. rewrite R. left; reflexivity.
Qed.

(** Before the end of a clean text without backticks the tail of the
    patterns does not match. *)
Lemma closing_inside (core tail : jsstring) :
  core <> [] -> ends_clean core -> no_backtick core = true ->
  closing (core ++ tail) = None.
Proof.
  intros Hne Hc Hb.
  destruct (closing (core ++ tail)) as [[]|] eqn:C; [|reflexivity].
  exfalso. apply closing_sound in C. destruct C as [ws [post [E W]]].
  destruct (trimStart_head core tail (ends_clean_last core Hne Hc))
    as [y [rest [T Hy]]].
  rewrite E, (trimStart_spaces ws _ W) in T.
  change (fence ++ post) with (96%N :: 96%N :: 96%N :: post) in T.
  simpl in T. injection T as <- _.
  unfold no_backtick in Hb. rewrite forallb_forall in Hb.
  specialize (Hb _ Hy). discriminate.
Qed.

Lemma ends_clean_tail (c : code_unit) (core : jsstring) :
  core <> [] -> ends_clean (c :: core) -> ends_clean core.
Proof.
  unfold ends_clean. simpl. intros Hne.
  destruct (rev core) as [|x t] eqn:R; [|auto].
  apply (f_equal (@rev code_unit)) in R. rewrite rev_involutive in R.
  contradiction.
Qed.

Lemma lazy_capture_exact (core ws post : jsstring) :
  ends_clean core -> no_backtick core = true ->
  forallb isWhiteSpace ws = true ->
  lazy_capture (core ++ ws ++ fence ++ post) = Some core.
Proof.
  intros Hc Hb W. induction core as [|c core IH].
  - rewrite app_nil_l, lazy_capture_unfold.
    assert (C : closing (ws ++ fence ++ post) = Some tt).
    { unfold closing. apply spaces_then_skip; [exact W | reflexivity]. }
    rewrite C. reflexivity.
  - rewrite lazy_capture_unfold.
    rewrite (closing_inside (c :: core) (ws ++ fence ++ post));
      [|discriminate | exact Hc | exact Hb].
    rewrite <- app_comm_cons.
    simpl in Hb. apply andb_true_iff in Hb. destruct Hb as [_ Hb].
    destruct core as [|d core'].
    + rewrite (IH I eq_refl). reflexivity.
    + rewrite IH; [reflexivity | | exact Hb].
      apply (ends_clean_tail c); [discriminate | exact Hc].
Qed.

Lemma match_here_mismatch (x c : code_unit) (rest s : jsstring) :
  N.eqb x c = false -> match_here (x :: rest) (c :: s) = None.
Proof.
  intros E. unfold match_here. cbn [strip_prefix]. rewrite E. reflexivity.
Qed.

Lemma regex_match_after_prose (opening pre s : jsstring) :
  no_backtick pre = true ->
  (exists rest, opening = 96%N :: rest) ->
  regex_match opening (pre ++ s) = regex_match opening s.
Proof.
  intros Hb [rest ->]. induction pre as [|c pre IH]; [reflexivity|].
  cbn [no_backtick forallb] in Hb.
  apply andb_true_iff in Hb. destruct Hb as [Hc Hb].
  rewrite regex_match_unfold. rewrite <- app_comm_cons.
  rewrite match_here_mismatch.
  - apply IH; exact Hb.
  - rewrite N.eqb_sym. apply negb_true_iff. exact Hc.
Qed.

(** X3. Unfencing undoes fencing: when a text without backticks is put
    between a [json] fence and a closing fence, with any white space
    inside the fences, any prose without backticks before the block and
    anything after it, the parser hands exactly the trimmed text to
    [JSON.parse]. *)
Theorem fenced_text_is_recovered (pre ws1 body ws2 post : jsstring) :
  no_backtick pre = true ->
  no_backtick body = true ->
  forallb isWhiteSpace ws1 = true ->
  forallb isWhiteSpace ws2 = true ->
  jsonContent (pre ++ fence_json ++ ws1 ++ body ++ ws2 ++ fence ++ post)
  = trim body.
Proof.
  intros Hpre Hbody W1 W2.
  destruct (trim_split body) as [lead [trail [E [Wl Wt]]]].
  assert (Hcore : no_backtick (trim body) = true).
  { unfold no_backtick in *. rewrite E in Hbody.
    apply forallb_app_true in Hbody. destruct Hbody as [_ Hbody].
    apply forallb_app_true in Hbody. apply Hbody. }
  assert (M : regex_match fence_json
                (pre ++ fence_json ++ ws1 ++ body ++ ws2 ++ fence ++ post)
              = Some (trim body)).
  { rewrite regex_match_after_prose;
      [|exact Hpre | exists (js "``json"); reflexivity].
    rewrite regex_match_unfold.
    unfold match_here at 1. rewrite strip_prefix_self.
    assert (S : spaces_then lazy_capture
                  (ws1 ++ body ++ ws2 ++ fence ++ post) = Some (trim body)).
    { rewrite E at 1. rewrite <- !app_assoc.
      rewrite (app_assoc ws1 lead).
      apply spaces_then_skip; [apply forallb_app_true; split; assumption|].
      rewrite (app_assoc trail ws2).
      assert (Wtail : forallb isWhiteSpace (trail ++ ws2) = true)
        by (apply forallb_app_true; split; assumption).
      destruct (trim body) as [|c core] eqn:T.
      - rewrite app_nil_l. apply spaces_then_skip; [exact Wtail|].
        reflexivity.
      - rewrite spaces_then_clean.
        + apply lazy_capture_exact; [|exact Hcore | exact Wtail].
          rewrite <- T. apply trim_ends_clean.
        + pose proof (trim_starts_clean body) as Sc.
          rewrite T in Sc. exact Sc. }
    rewrite S. reflexivity. }
  unfold jsonContent, jsonMatch. rewrite M. reflexivity.
Qed.

End ParserLaws.

(* ----------------------------------------------------------------- *)
(** ** The response parser: which block, and how much of it *)

Module ParserSearch.
Import Parser Route ParserFacts ParserLaws.

Lemma find_first_unfold (needle hay : jsstring) :
  find_first needle hay =
  match strip_prefix needle hay with
  | Some after => Some ([], after)
  | None =>
      match hay with
      | [] => None
      | c :: hay' =>
          match find_first needle hay' with
          | Some (before, after) => Some (c :: before, after)
          | None => None
          end
      end
  end.
Proof. destruct hay; reflexivity. Qed.

(** [find_first] answers an occurrence, and no occurrence begins before
    it. *)
Lemma find_first_sound (needle hay before after : jsstring) :
  find_first needle hay = Some (before, after) ->
  hay = before ++ needle ++ after /\
  (forall a b, before = a ++ b -> b <> [] ->
               strip_prefix needle (b ++ needle ++ after) = None).
Proof.
  revert before; induction hay as [|c hay IH]; intros before;
    rewrite find_first_unfold.
  - destruct (strip_prefix needle []) as [r|] eqn:P; [|discriminate].
    intros [= <- <-]. apply strip_prefix_app in P.
    split; [exact P|]. intros a b E Hb.
    symmetry in E. apply app_eq_nil in E. destruct E; contradiction.
  - destruct (strip_prefix needle (c :: hay)) as [r|] eqn:P.
    + intros [= <- <-]. apply strip_prefix_app in P.
      split; [exact P|]. intros a b E Hb.
      symmetry in E. apply app_eq_nil in E. destruct E; contradiction.
    + destruct (find_first needle hay) as [[bf af]|]; [|discriminate].
      intros [= <- <-]. destruct (IH bf eq_refl) as [E F].
      split; [rewrite E; reflexivity|].
      intros a b Eb Hb. destruct a as [|x a].
      * rewrite app_nil_l in Eb. subst b.
        rewrite <- app_comm_cons, <- E. exact P.
      * injection Eb as _ Eb. exact (F a b Eb Hb).
Qed.

Lemma find_first_complete (needle a b : jsstring) :
  find_first needle (a ++ needle ++ b) <> None.
Proof.
  induction a as [|c a IH]; rewrite find_first_unfold.
  - rewrite app_nil_l, strip_prefix_self. discriminate.
  - destruct (strip_prefix needle ((c :: a) ++ needle ++ b));
      [discriminate|].
    rewrite <- app_comm_cons.
    destruct (find_first needle (a ++ needle ++ b)) as [[bf af]|];
      [discriminate | exact IH].
Qed.

(** The occurrence [find_first] answers is the only one without an
    earlier occurrence. *)
Lemma find_first_spec (needle hay before after : jsstring) :
  find_first needle hay = Some (before, after) <->
  hay = before ++ needle ++ after /\
  (forall a b, before = a ++ b -> b <> [] ->
               strip_prefix needle (b ++ needle ++ after) = None).
Proof.
  split; [apply find_first_sound|].
  intros [-> F]. induction before as [|c before IH];
    rewrite find_first_unfold.
  - rewrite app_nil_l, strip_prefix_self. reflexivity.
  - rewrite (F [] (c :: before) eq_refl); [|discriminate].
    rewrite <- app_comm_cons. rewrite IH; [reflexivity|].
    intros a b E Hb. apply (F (c :: a) b); [rewrite E; reflexivity | exact Hb].
Qed.

(** Two ways of cutting one text. *)
Lemma app_split_le {A} (l1 r1 l2 r2 : list A) :
  l1 ++ r1 = l2 ++ r2 -> List.length l1 <= List.length l2 ->
  exists m, l2 = l1 ++ m /\ r1 = m ++ r2.
Proof.
  revert l2; induction l1 as [|x l1 IH]; intros l2 E L.
  - exists l2; split; [reflexivity | exact E].
  - destruct l2 as [|y l2]; [simpl in L; lia|].
    simpl in E. injection E as -> E.
    destruct (IH l2 E) as [m [-> ->]]; [simpl in L; lia|].
    exists m; split; reflexivity.
Qed.

(** White space that runs into a text with a character that is not
    white space ends inside that text. *)
Lemma spaces_end_inside (ws b tail rest : jsstring) :
  forallb isWhiteSpace ws = true ->
  b ++ tail = ws ++ rest ->
  (exists x, In x b /\ isWhiteSpace x = false) ->
  exists b', b = ws ++ b' /\ b' <> [] /\ b' ++ tail = rest.
Proof.
  revert b; induction ws as [|w ws IH]; intros b W E [x [Hin Hx]].
  - exists b. split; [reflexivity|]. split; [|exact E].
    intros ->; destruct Hin.
  - simpl in W. apply andb_true_iff in W. destruct W as [Ww W].
    destruct b as [|c b]; [destruct Hin|].
    simpl in E. injection E as -> E.
    destruct Hin as [-> | Hin]; [congruence|].
    destruct (IH b W E) as [b' [-> [Hb' Eb']]]; [eauto|].
    exists b'; split; [reflexivity | split; assumption].
Qed.

Lemma ends_clean_suffix (a b : jsstring) :
  ends_clean (a ++ b) -> b <> [] -> ends_clean b.
Proof.
  unfold ends_clean. rewrite rev_app_distr. intros Hc Hb.
  destruct (rev b) as [|x t] eqn:R; [|exact Hc].
  apply (f_equal (@rev code_unit)) in R. rewrite rev_involutive in R.
  contradiction.
Qed.

(** The lazy group stops at the first position where the tail of the
    pattern matches. *)
Lemma lazy_capture_first (core tail : jsstring) :
  closing tail = Some tt ->
  (forall a b, core = a ++ b -> b <> [] -> closing (b ++ tail) = None) ->
  lazy_capture (core ++ tail) = Some core.
Proof.
  intros C. induction core as [|c core IH]; intros F;
    rewrite lazy_capture_unfold.
  - rewrite app_nil_l, C. reflexivity.
  - rewrite (F [] (c :: core) eq_refl); [|discriminate].
    rewrite <- app_comm_cons. rewrite IH; [reflexivity|].
    intros a b E Hb. apply (F (c :: a) b); [rewrite E; reflexivity | exact Hb].
Qed.

(** After the opening, the capture is the text before the first fence,
    trimmed. *)
Lemma capture_is_trimmed_region (r region after : jsstring) :
  find_first fence r = Some (region, after) ->
  spaces_then lazy_capture r = Some (trim region).
Proof.
  intros Ff. apply find_first_sound in Ff. destruct Ff as [-> F].
  destruct (trim_split region) as [lead [trail [E [Wl Wt]]]].
  pose proof (trim_starts_clean region) as Sc.
  pose proof (trim_ends_clean region) as Ec.
  remember (trim region) as core eqn:Hcore. clear Hcore.
  subst region. rewrite <- !app_assoc.
  apply spaces_then_skip; [exact Wl|].
  assert (C : closing (trail ++ fence ++ after) = Some tt).
  { unfold closing. apply spaces_then_skip; [exact Wt | reflexivity]. }
  destruct core as [|c core'].
  { rewrite app_nil_l. apply spaces_then_skip; [exact Wt | reflexivity]. }
  rewrite spaces_then_clean by exact Sc.
  assert (Hne : c :: core' <> []) by discriminate.
  remember (c :: core') as core eqn:Hc. clear Hc Sc.
  apply lazy_capture_first; [exact C|].
  intros a b Eb Hb.
  destruct (closing (b ++ trail ++ fence ++ after)) as [[]|] eqn:Cb;
    [|reflexivity].
  exfalso. apply closing_sound in Cb. destruct Cb as [ws [post [Ews W]]].
  assert (Eb' : ends_clean b).
  { apply (ends_clean_suffix a); [rewrite <- Eb; exact Ec | exact Hb]. }
  destruct (spaces_end_inside ws b (trail ++ fence ++ after) (fence ++ post)
              W Ews (ends_clean_last b Hb Eb'))
    as [b' [-> [Hb' Et]]].
  specialize (F (lead ++ a ++ ws) (b' ++ trail)).
  rewrite <- !app_assoc in F. rewrite Et, strip_prefix_self in F.
  assert (N : Some post = None).
  { apply F.
    - rewrite Eb, <- !app_assoc. reflexivity.
    - intros N. apply app_eq_nil in N. destruct N; contradiction. }
  discriminate N.
Qed.

(** Without a fence after the opening, the pattern matches nowhere. *)
Lemma no_fence_no_match (opening r : jsstring) :
  find_first fence r = None -> regex_match opening (opening ++ r) = None.
Proof.
  intros Ff.
  assert (Here : forall pre s, opening ++ r = pre ++ s ->
                               match_here opening s = None).
  { intros pre s E. destruct (match_here opening s) as [cap|] eqn:M;
      [|reflexivity].
    exfalso. apply match_here_sound in M.
    destruct M as [ws1 [ws2 [post [-> _]]]].
    destruct (app_split_le opening r
                (pre ++ opening ++ ws1 ++ cap ++ ws2) (fence ++ post))
      as [m [_ Er]].
    - rewrite E, <- !app_assoc. reflexivity.
    - rewrite !length_app. lia.
    - apply (find_first_complete fence m post). rewrite <- Er. exact Ff. }
  remember (opening ++ r) as s eqn:Es. clear Es.
  induction s as [|c s IH]; rewrite regex_match_unfold.
  - rewrite (Here [] [] eq_refl). reflexivity.
  - rewrite (Here [] (c :: s) eq_refl). apply IH.
    intros pre t E. apply (Here (c :: pre) t). rewrite E. reflexivity.
Qed.

(** Each pattern finds the block opened by its first opening. *)
Lemma regex_match_is_block_after (opening raw : jsstring) :
  regex_match opening raw = block_after opening raw.
Proof.
  unfold block_after.
  induction raw as [|c raw IH];
    rewrite find_first_unfold.
  - destruct (strip_prefix opening []) as [r|] eqn:P.
    + apply strip_prefix_app in P.
      destruct (find_first fence r) as [[region after]|] eqn:Ff.
      * rewrite regex_match_unfold. unfold match_here.
        rewrite P at 1. rewrite strip_prefix_self.
        rewrite (capture_is_trimmed_region r region after Ff). reflexivity.
      * rewrite P. apply no_fence_no_match; exact Ff.
    + rewrite regex_match_unfold. unfold match_here. rewrite P. reflexivity.
  - destruct (strip_prefix opening (c :: raw)) as [r|] eqn:P.
    + pose proof (strip_prefix_app _ _ _ P) as E.
      destruct (find_first fence r) as [[region after]|] eqn:Ff.
      * rewrite regex_match_unfold. unfold match_here. rewrite P.
        rewrite (capture_is_trimmed_region r region after Ff). reflexivity.
      * rewrite E. apply no_fence_no_match; exact Ff.
    + rewrite regex_match_unfold. unfold match_here. rewrite P.
      rewrite IH.
      destruct (find_first opening raw) as [[bf af]|]; reflexivity.
Qed.

Lemma jsonMatch_is_block_interior (raw : jsstring) :
  jsonMatch raw = block_interior raw.
Proof.
  unfold jsonMatch, block_interior.
  rewrite !regex_match_is_block_after. reflexivity.
Qed.

(** C6, as the claim states it, fails on a block tagged with another
    language than [json]: read with an optional language tag the block
    holds the object of the other examples, but the parser hands the tag
    over with it and the parse fails. *)
Lemma language_tag_is_not_skipped :
  content_as_worded js_tagged_example = bare_example /\
  jsonContent js_tagged_example = js "js" ++ LF ++ bare_example /\
  ~ (parse_insights js_tagged_example
     = (JSON_parse (content_as_worded js_tagged_example)
        : outcome (value Z))).
Proof.
  split; [vm_compute; reflexivity|].
  split; [vm_compute; reflexivity|].
  intros C. vm_compute in C. discriminate C.
Qed.

(** C6, amended.  The parser looks for a block opened by a fence with
    the tag [json] first, and for a block opened by a bare fence second;
    no other tag is recognised.  In both searches the block is the one
    opened by the first such opening of the text, it ends at the first
    fence after that opening, and its interior is the text between the
    two without the white space around it; there is no block when no
    fence follows the first opening.  A block that is found has its
    interior handed to [JSON.parse]; otherwise the whole text is.  On the
    reference engine the fenced and the bare text of the specification
    both parse to the object with [a] bound to 1; the prose text fails,
    which the handler reports as the parse-failure payload carrying the
    text and the parser's message; of two tagged blocks after a bare one
    the first tagged one is parsed; and a block tagged [js] is handed
    over with its tag and fails. *)
Theorem response_parser_algorithm :
  (forall raw : jsstring, jsonMatch raw = block_interior raw) /\
  (forall (number : Type) (E : Engine number) (raw : jsstring),
     parse_insights raw
     = JSON_parse match block_interior raw with
                  | Some interior => interior
                  | None => raw
                  end) /\
  parse_insights fenced_example = Return (VObj [(js "a", VNum 1%Z)]) /\
  parse_insights bare_example = Return (VObj [(js "a", VNum 1%Z)]) /\
  parse_insights prose_example = Throw Reference.unexpected_token /\
  (forall (w : World Z) user_id job_posting_ids table,
     finish w user_id job_posting_ids prose_example table
     = (ParseFailed prose_example (exn_message Reference.unexpected_token),
        table, [JsonParsingError])) /\
  parse_insights two_blocks_example = Return (VNum 2%Z) /\
  block_interior js_tagged_example = Some (js "js" ++ LF ++ bare_example) /\
  parse_insights js_tagged_example = Throw Reference.unexpected_token.
Proof.
  split; [exact jsonMatch_is_block_interior|].
  split.
  { intros number E raw. unfold parse_insights, jsonContent.
    rewrite jsonMatch_is_block_interior. reflexivity. }
  split; [vm_compute; reflexivity|].
  split; [vm_compute; reflexivity|].
  split; [vm_compute; reflexivity|].
  split.
  { intros w user_id job_posting_ids table.
    unfold finish.
    replace (parse_insights prose_example)
      with (@Throw (value Z) Reference.unexpected_token)
      by (vm_compute; reflexivity).
    reflexivity. }
  split; [vm_compute; reflexivity|].
  split; vm_compute; reflexivity.
Qed.

End ParserSearch.

(* ----------------------------------------------------------------- *)
(** ** The insight normalizer: what it returns and where it returns *)

Module NormalizerLaws.
Import Normalizer NormalizerFacts.

Section Laws.
Context {number : Type} `{Engine number}.

Lemma mapM_length {A B} (f : A -> outcome B) (xs : list A) (ys : list B) :
  mapM f xs = Return ys -> List.length ys = List.length xs.
Proof.
  revert ys; induction xs as [|x xs IH]; intros ys; simpl.
  - intros [= <-]; reflexivity.
  - destruct (f x) as [y|e]; [|discriminate]. simpl.
    destruct (mapM f xs) as [ys'|e]; [|discriminate]. simpl.
    intros [= <-]. simpl. rewrite (IH ys' eq_refl). reflexivity.
Qed.

Lemma filter_length_le {A} (p : A -> bool) (l : list A) :
  List.length (filter p l) <= List.length l.
Proof.
  induction l as [|x l IH]; simpl; [lia|].
  destruct (p x); simpl; lia.
Qed.

Lemma filter_trimmed (l : list jsstring) :
  Forall (fun s => trim s = s /\ s <> []) (filter nonempty (map trim l)).
Proof.
  apply Forall_forall. intros s Hs.
  apply filter_In in Hs. destruct Hs as [Hin Hne].
  apply in_map_iff in Hin. destruct Hin as [x [<- _]].
  split; [apply trim_idempotent|].
  destruct (trim x); [discriminate | discriminate].
Qed.

(** X4. Whatever [normalizedArray] returns is a list of trimmed,
    non-empty strings; from an array it never returns more strings than
    the array has elements, and from anything else at most one. *)
Theorem normalizedArray_returns_trimmed_strings (v : value number)
    (l : list jsstring) :
  normalizedArray v = Return l ->
  Forall (fun s => trim s = s /\ s <> []) l /\
  List.length l <= match v with
                   | VArr items => List.length items
                   | _ => 1
                   end.
Proof.
  destruct v; simpl; try (intros [= <-]; split; [constructor | simpl; lia]).
  - destruct (trim s) as [|c t] eqn:T; simpl; intros [= <-].
    + split; [constructor | simpl; lia].
    + split; [|simpl; lia].
      constructor; [|constructor].
      split; [rewrite <- T; apply trim_idempotent | discriminate].
  - fold (normalizedArray (VArr items)). unfold normalizedArray.
    rewrite mapM_callback.
    destruct (mapM ToString items) as [strs|e] eqn:M; [|discriminate].
    cbn [bind]. intros [= <-].
    split; [apply filter_trimmed|].
    apply mapM_length in M. rewrite <- M, <- (length_map trim strs).
    apply filter_length_le.
Qed.

Lemma normalizedArray_of_trimmed (l : list jsstring) :
  Forall (fun s => trim s = s /\ s <> []) l ->
  normalizedArray (VArr (map VStr l) : value number) = Return l.
Proof.
  intros Hl. unfold normalizedArray.
  assert (M : mapM (fun item : value number =>
                      match item with
                      | VStr s => Return (trim s)
                      | _ => s <- ToString item ;; Return (trim s)
                      end) (map VStr l) = Return l).
  { induction Hl as [|s l [Ht _] _ IH]; [reflexivity|].
    cbn [map mapM]. rewrite IH, Ht. reflexivity. }
  rewrite M. cbn [bind]. f_equal.
  clear M. induction Hl as [|s l [_ Hne] _ IH]; [reflexivity|].
  destruct s as [|c s]; [congruence|].
  cbn [filter nonempty]. rewrite IH. reflexivity.
Qed.

(** X5. Normalizing is idempotent: the list [normalizedArray] returns,
    handed back as an array of strings, is returned unchanged. *)
Theorem normalizedArray_idempotent (v : value number) (l : list jsstring) :
  normalizedArray v = Return l ->
  normalizedArray (VArr (map VStr l)) = Return l.
Proof.
  intros Hv. apply normalizedArray_of_trimmed.
  destruct v; simpl in Hv; try (injection Hv as <-; constructor).
  - destruct (trim s) as [|c t] eqn:T; simpl in Hv; injection Hv as <-;
      constructor; [|constructor].
    split; [rewrite <- T; apply trim_idempotent | discriminate].
  - fold (normalizedArray (VArr items)) in Hv. unfold normalizedArray in Hv.
    rewrite mapM_callback in Hv.
    destruct (mapM ToString items) as [strs|e]; [|discriminate].
    cbn [bind] in Hv. injection Hv as <-. apply filter_trimmed.
Qed.

Lemma or_else_truthy (a b : value number) :
  ToBoolean b = true -> ToBoolean (or_else a b) = true.
Proof. unfold or_else. destruct (ToBoolean a) eqn:T; auto. Qed.

Lemma validatedInsights_scalars (insights : value number)
    (now : jsstring) (ids : list jsstring) (r : ValidatedInsights number) :
  validatedInsights insights now ids = Return r ->
  role_title r
  = or_else (get_optional insights (js "role_title"))
      (VStr (js "Unknown Role")) /\
  seniority_level r
  = or_else (get_optional insights (js "seniority_level"))
      (VStr (js "mid")) /\
  industry_context r
  = or_else (get_optional insights (js "industry_context"))
      (VStr (js "General")) /\
  extracted_at r = now /\
  sources_analyzed r = List.length ids.
Proof.
  unfold validatedInsights; intros Hv.
  repeat match type of Hv with
         | bind _ _ = Return _ =>
             let x := fresh "x" in
             let E := fresh "E" in
             apply bind_Return in Hv; destruct Hv as [x [E Hv]]
         end.
  injection Hv as <-.
  cbn [role_title seniority_level industry_context extracted_at
       sources_analyzed].
  repeat match goal with
         | E : get insights _ = Return ?x |- _ =>
             apply get_Return in E; subst x
         end.
  repeat split; reflexivity.
Qed.

Lemma validatedInsights_truthy (insights : value number)
    (now : jsstring) (ids : list jsstring) (r : ValidatedInsights number) :
  validatedInsights insights now ids = Return r ->
  ToBoolean (role_title r) = true /\
  ToBoolean (seniority_level r) = true /\
  ToBoolean (industry_context r) = true.
Proof.
  intros Hv.
  destruct (validatedInsights_scalars _ _ _ _ Hv) as [-> [-> [-> _]]].
  repeat split; apply or_else_truthy; reflexivity.
Qed.

(** X6. In every record the normalizer returns the three scalars are
    the raw values when those are truthy and the defaults
    ["Unknown Role"], ["mid"] and ["General"] otherwise; so none of them
    is ever [undefined], [null], [false], zero or the empty string.  The
    time stamp and the source count are the clock's and the request's,
    whatever the answer holds. *)
Theorem scalars_are_raw_or_default (insights : value number)
    (now : jsstring) (ids : list jsstring) (r : ValidatedInsights number) :
  validatedInsights insights now ids = Return r ->
  role_title r
  = or_else (get_optional insights (js "role_title"))
      (VStr (js "Unknown Role")) /\
  seniority_level r
  = or_else (get_optional insights (js "seniority_level"))
      (VStr (js "mid")) /\
  industry_context r
  = or_else (get_optional insights (js "industry_context"))
      (VStr (js "General")) /\
  ToBoolean (role_title r) = true /\
  ToBoolean (seniority_level r) = true /\
  ToBoolean (industry_context r) = true /\
  extracted_at r = now /\
  sources_analyzed r = List.length ids.
Proof.
  intros Hv.
  destruct (validatedInsights_scalars _ _ _ _ Hv) as [R [S [I [X N]]]].
  destruct (validatedInsights_truthy _ _ _ _ Hv) as [T1 [T2 T3]].
  repeat split; assumption.
Qed.

Lemma list_field_not_coercible (raw : value number) (sentinel : jsstring) :
  coercible raw = false -> list_field raw sentinel = Throw cannot_convert.
Proof.
  intros C. unfold list_field.
  rewrite (normalizedArray_not_coercible raw C). reflexivity.
Qed.

(** X7. On a JSON object the normalizer returns a record exactly when
    every raw list field is coercible, that is when no array among them
    holds, at any depth of nested arrays, an object with a [toString]
    key; the record then has well-formed list fields, and otherwise the
    TypeError of the string conversion is thrown. *)
Theorem validatedInsights_domain (props : list (jsstring * value number))
    (now : jsstring) (ids : list jsstring) :
  if forallb coercible (raw_list_fields (VObj props))
  then exists r, validatedInsights (VObj props) now ids = Return r /\
                 lists_well_formed r
  else validatedInsights (VObj props) now ids = Throw cannot_convert.
Proof.
  destruct (forallb coercible (raw_list_fields (VObj props))) eqn:C.
  - apply validatedInsights_returns; exact C.
  - unfold raw_list_fields in C. cbn [forallb] in C.
    unfold validatedInsights, skill, get. cbn [bind].
    repeat match goal with
           | |- context [list_field ?raw ?sentinel] =>
               let Cr := fresh "Cr" in
               destruct (coercible raw) eqn:Cr;
               [ let l := fresh "l" in
                 let E := fresh "E" in
                 destruct (list_field_coercible raw sentinel Cr) as [l E];
                 rewrite E; cbn [bind]; cbn [andb] in C
               | rewrite (list_field_not_coercible raw sentinel Cr);
                 reflexivity ]
           end.
    discriminate.
Qed.

(** X8. A parsed answer that is not an object is not refused: a number,
    a string, a boolean or an array is normalized to the record of
    defaults, and [null] makes the normalizer throw on its first
    property read. *)
Theorem non_object_answers (insights : value number) (now : jsstring)
    (ids : list jsstring) :
  match insights with
  | VObj _ => True
  | VUndefined | VNull =>
      validatedInsights insights now ids = Throw cannot_read
  | _ => validatedInsights insights now ids = Return (default_insights now ids)
  end.
Proof. destruct insights; try reflexivity; exact I. Qed.

End Laws.

End NormalizerLaws.

(* ----------------------------------------------------------------- *)
(** ** The extraction handler: what reaches the table *)

Module RouteLaws.
Import Retriever Parser Normalizer NormalizerFacts NormalizerLaws Route.

Section Laws.
Context {number : Type} `{Engine number}.

Lemma finish_outcome (w : World number) (user_id : jsstring)
    (ids : list jsstring) (raw : jsstring) (table : list (Row number)) :
  match fst (fst (finish w user_id ids raw table)) with
  | Extracted id v =>
      insert_answer w = Return id /\
      (exists insights,
         parse_insights raw = Return insights /\
         validatedInsights insights (clock w) ids = Return v) /\
      snd (fst (finish w user_id ids raw table))
      = table ++ [new_row user_id ids v]
  | _ => snd (fst (finish w user_id ids raw table)) = table
  end.
Proof.
  unfold finish.
  destruct (parse_insights raw) as [insights|e]; [|reflexivity].
  destruct (validatedInsights insights (clock w) ids) as [v|e] eqn:V;
    [|reflexivity].
  destruct (insert_answer w) as [id|e]; [|reflexivity].
  cbn [fst snd]. split; [reflexivity|]. split; [eauto | reflexivity].
Qed.

Lemma POST_outcome (w : World number) (req : Request)
    (table : list (Row number)) :
  match fst (fst (POST w req table)) with
  | Extracted id v =>
      exists user_id ids raw insights,
        req_user_id req = Some user_id /\
        req_job_posting_ids req = Some ids /\
        agent_answer w = Return raw /\
        parse_insights raw = Return insights /\
        validatedInsights insights (clock w) ids = Return v /\
        insert_answer w = Return id /\
        snd (fst (POST w req table)) = table ++ [new_row user_id ids v]
  | _ => snd (fst (POST w req table)) = table
  end.
Proof.
  unfold POST.
  destruct (req_user_id req) as [[|c u]|] eqn:Hu; try reflexivity.
  destruct (req_job_posting_ids req) as [[|j js0]|] eqn:Hj; try reflexivity.
  destruct (existingDocs w (c :: u)) as [[|doc docs]|e]; try reflexivity.
  destruct (agent_answer w) as [raw|e] eqn:Ha; [|reflexivity].
  pose proof (finish_outcome w (c :: u) (j :: js0) raw table) as F.
  destruct (finish w (c :: u) (j :: js0) raw table) as [[resp table'] out].
  cbn [fst snd] in *.
  destruct resp; try exact F.
  destruct F as [Hi [[ins [Hp Hv]] Ht]].
  exists (c :: u), (j :: js0), raw, ins.
  repeat split; try reflexivity; assumption.
Qed.

(** X9. The handler changes the [role_insights] table only together
    with a success response, and then by appending exactly one row: the
    row of the request's user and ids whose columns and insights are
    those of the response, which were normalized from the parsed answer
    of the agent.  Every other response leaves the table as it was. *)
Theorem table_changes_only_on_success (w : World number) (req : Request)
    (table : list (Row number)) :
  match fst (fst (POST w req table)) with
  | Extracted id v =>
      exists user_id ids raw insights,
        req_user_id req = Some user_id /\
        req_job_posting_ids req = Some ids /\
        agent_answer w = Return raw /\
        parse_insights raw = Return insights /\
        validatedInsights insights (clock w) ids = Return v /\
        insert_answer w = Return id /\
        snd (fst (POST w req table))
        = table ++ [{| row_user_id := user_id;
                       row_job_posting_ids := ids;
                       row_role_title := role_title v;
                       row_seniority_level := seniority_level v;
                       row_industry_context := industry_context v;
                       row_insights := v |}]
  | _ => snd (fst (POST w req table)) = table
  end.
Proof. exact (POST_outcome w req table). Qed.

(** X10. The handler keeps the table well formed: when every stored row
    has non-empty list fields without empty strings, truthy scalars and
    columns that repeat the scalars of its insights, so has every row
    after the request, whatever the collaborators answer. *)
Theorem stored_rows_stay_well_formed (w : World number) (req : Request)
    (table : list (Row number)) :
  Forall row_well_formed table ->
  Forall row_well_formed (snd (fst (POST w req table))).
Proof.
  intros Ht. pose proof (POST_outcome w req table) as P.
  destruct (fst (fst (POST w req table))) as [ | | | |id v];
    try (rewrite P; exact Ht).
  destruct P as [user_id [ids [raw [ins [_ [_ [_ [_ [Hv [_ ->]]]]]]]]]].
  apply Forall_app; split; [exact Ht|].
  constructor; [|constructor].
  pose proof (validatedInsights_truthy _ _ _ _ Hv) as [T1 [T2 T3]].
  unfold row_well_formed, new_row; cbn.
  repeat split; try assumption;
    apply (validatedInsights_lists _ _ _ _ Hv).
Qed.

Lemma finish_response (w : World number) (user_id : jsstring)
    (ids : list jsstring) (raw : jsstring) (table : list (Row number)) :
  (forall error, fst (fst (finish w user_id ids raw table))
                 <> BadRequest error) /\
  (forall error, fst (fst (finish w user_id ids raw table))
                 <> NotFound error).
Proof.
  unfold finish.
  destruct (parse_insights raw) as [ins|pe]; [|split; discriminate].
  destruct (validatedInsights ins (clock w) ids) as [v|e1];
    [|split; discriminate].
  destruct (insert_answer w) as [id|e2]; split; discriminate.
Qed.

Lemma POST_gates (w : World number) (req : Request)
    (table : list (Row number)) :
  match req_user_id req, req_job_posting_ids req with
  | Some (c :: u), Some (_ :: _) =>
      match existingDocs w (c :: u) with
      | Return [] =>
          (exists error, fst (fst (POST w req table)) = NotFound error) /\
          (forall error, fst (fst (POST w req table)) <> BadRequest error) /\
          ~ In InvokingAgent (snd (POST w req table))
      | Return (_ :: _) =>
          (forall error, fst (fst (POST w req table)) <> BadRequest error) /\
          (forall error, fst (fst (POST w req table)) <> NotFound error) /\
          In InvokingAgent (snd (POST w req table))
      | Throw e =>
          (forall error, fst (fst (POST w req table)) <> BadRequest error) /\
          (forall error, fst (fst (POST w req table)) <> NotFound error) /\
          ~ In InvokingAgent (snd (POST w req table))
      end
  | _, _ =>
      (exists error, fst (fst (POST w req table)) = BadRequest error) /\
      (forall error, fst (fst (POST w req table)) <> NotFound error) /\
      ~ In InvokingAgent (snd (POST w req table))
  end.
Proof.
  unfold POST.
  destruct (req_user_id req) as [[|c u]|].
  1, 3: (split; [eexists; reflexivity|]; split; [discriminate|];
         intros [E | []]; discriminate).
  destruct (req_job_posting_ids req) as [[|j js0]|].
  1, 3: (split; [eexists; reflexivity|]; split; [discriminate|];
         intros [E | []]; discriminate).
  destruct (existingDocs w (c :: u)) as [[|doc docs]|e].
  - split; [eexists; reflexivity|]; split; [discriminate|].
    intros [E | [E | []]]; discriminate.
  - destruct (agent_answer w) as [raw|e0].
    + pose proof (finish_response w (c :: u) (j :: js0) raw table) as [F1 F2].
      destruct (finish w (c :: u) (j :: js0) raw table) as [[resp table'] out].
      cbn [fst snd] in *.
      split; [exact F1|]; split; [exact F2|].
      do 4 right. left; reflexivity.
    + split; [discriminate|]; split; [discriminate|].
      cbn [snd]. do 4 right. left; reflexivity.
  - split; [discriminate|]; split; [discriminate|].
    intros [E | [E | [E | []]]]; discriminate.
Qed.

(** X11. The handler refuses a request with status 400 exactly when the
    user id or the list of posting ids is absent or empty, and with
    status 404 exactly when both are present and the user has no
    document; the agent is invoked exactly when both are present and the
    user has a document. *)
Theorem request_gates (w : World number) (req : Request)
    (table : list (Row number)) :
  ((exists error, fst (fst (POST w req table)) = BadRequest error) <->
   (req_user_id req = None \/ req_user_id req = Some [] \/
    req_job_posting_ids req = None \/ req_job_posting_ids req = Some [])) /\
  ((exists error, fst (fst (POST w req table)) = NotFound error) <->
   (exists user_id ids,
      req_user_id req = Some user_id /\ user_id <> [] /\
      req_job_posting_ids req = Some ids /\ ids <> [] /\
      existingDocs w user_id = Return [])) /\
  (In InvokingAgent (snd (POST w req table)) <->
   (exists user_id ids doc docs,
      req_user_id req = Some user_id /\ user_id <> [] /\
      req_job_posting_ids req = Some ids /\ ids <> [] /\
      existingDocs w user_id = Return (doc :: docs))).
Proof.
  pose proof (POST_gates w req table) as G.
  destruct (req_user_id req) as [[|c u]|] eqn:Hu.
  1, 3: (destruct G as [B [NF NA]];
         split; [split; [auto | intros _; exact B]|];
         split; [split; [intros [x E]; destruct (NF x E)
                        | intros [x [y [E [N _]]]]; congruence]|];
         split; [intros A; destruct (NA A)
                | intros [x [y [d [ds [E [N _]]]]]]; congruence]).
  destruct (req_job_posting_ids req) as [[|j js0]|] eqn:Hj.
  1, 3: (destruct G as [B [NF NA]];
         split; [split; [auto | intros _; exact B]|];
         split; [split; [intros [x E]; destruct (NF x E)
                        | intros [x [y [_ [_ [E [N _]]]]]]; congruence]|];
         split; [intros A; destruct (NA A)
                | intros [x [y [d [ds [_ [_ [E [N _]]]]]]]]; congruence]).
  destruct (existingDocs w (c :: u)) as [[|doc docs]|e] eqn:Hd.
  - destruct G as [NF [NB NA]].
    split; [split; [intros [x E]; destruct (NB x E)
                   | intros [E | [E | [E | E]]]; discriminate]|].
    split; [split; [intros _; exists (c :: u), (j :: js0);
                    repeat split; try discriminate; exact Hd
                   | intros _; exact NF]|].
    split; [intros A; destruct (NA A)|].
    intros [x [y [d [ds [E1 [_ [_ [_ E3]]]]]]]].
    injection E1 as <-. congruence.
  - destruct G as [NB [NF A]].
    split; [split; [intros [x E]; destruct (NB x E)
                   | intros [E | [E | [E | E]]]; discriminate]|].
    split; [split; [intros [x E]; destruct (NF x E)|]|].
    { intros [x [y [E1 [_ [_ [_ E3]]]]]]. injection E1 as <-. congruence. }
    split; [intros _|intros _; exact A].
    exists (c :: u), (j :: js0), doc, docs.
    repeat split; try discriminate; exact Hd.
  - destruct G as [NB [NF NA]].
    split; [split; [intros [x E]; destruct (NB x E)
                   | intros [E | [E | [E | E]]]; discriminate]|].
    split; [split; [intros [x E]; destruct (NF x E)|]|].
    { intros [x [y [E1 [_ [_ [_ E3]]]]]]. injection E1 as <-. congruence. }
    split; [intros A; destruct (NA A)|].
    intros [x [y [d [ds [E1 [_ [_ [_ E3]]]]]]]].
    injection E1 as <-. congruence.
Qed.

End Laws.

End RouteLaws.

(* ----------------------------------------------------------------- *)
(** ** The ingestion route: section titles *)

Module TitleLaws.
Import Normalizer Ingest ParserLaws.

Ltac split_bounds H :=
  repeat match type of H with
         | (_ && _)%bool = true =>
             let H1 := fresh "B" in
             apply andb_true_iff in H; destruct H as [H H1];
             try apply N.leb_le in H1
         end;
  try apply N.leb_le in H.

Ltac decide_comparisons :=
  repeat match goal with
         | |- context [N.eqb ?a ?b] =>
             destruct (N.eqb_spec a b); [lia|]
         | |- context [N.leb ?a ?b] =>
             destruct (N.leb_spec a b); try lia
         end.

Lemma upper_not_space (c : code_unit) :
  is_upper c = true -> isWhiteSpace c = false.
Proof.
  unfold is_upper, isWhiteSpace. intros U. split_bounds U.
  decide_comparisons; try reflexivity.
Qed.

Lemma upper_not_terminator (c : code_unit) :
  is_upper c = true -> N.eqb c 10 = false /\ N.eqb c 13 = false.
Proof.
  unfold is_upper. intros U. split_bounds U.
  split; apply N.eqb_neq; lia.
Qed.

Lemma heading_char_not_terminator (c : code_unit) :
  heading_char c = true -> N.eqb c 10 = false /\ N.eqb c 13 = false.
Proof.
  unfold heading_char, is_upper. intros U.
  split; apply N.eqb_neq; intros ->; vm_compute in U; discriminate.
Qed.

(** *** The heading pattern *)

Lemma chars_then_sound {A} (p : code_unit -> bool)
    (k : jsstring -> jsstring -> option A) (acc s : jsstring) (r : A) :
  chars_then p k acc s = Some r ->
  exists run tail,
    s = run ++ tail /\ forallb p run = true /\ k (acc ++ run) tail = Some r.
Proof.
  revert acc; induction s as [|c s IH]; intros acc; simpl.
  - intros K. exists [], []. rewrite (app_nil_r acc). auto.
  - destruct (p c) eqn:Pc.
    + destruct (chars_then p k (acc ++ [c]) s) as [r'|] eqn:E.
      * intros [= ->]. destruct (IH _ E) as [run [tail [-> [Pr K]]]].
        exists (c :: run), tail. simpl. rewrite Pc, Pr.
        rewrite <- app_assoc in K. auto.
      * intros K. exists [], (c :: s). rewrite (app_nil_r acc). auto.
    + intros K. exists [], (c :: s). rewrite (app_nil_r acc). auto.
Qed.

Lemma chars_then_greedy {A} (p : code_unit -> bool)
    (k : jsstring -> jsstring -> option A) (run tail acc : jsstring) (r : A) :
  forallb p run = true ->
  match tail with [] => True | d :: _ => p d = false end ->
  k (acc ++ run) tail = Some r ->
  chars_then p k acc (run ++ tail) = Some r.
Proof.
  revert acc; induction run as [|x run IH]; intros acc Pr Pt K.
  - rewrite app_nil_r in K. simpl.
    destruct tail as [|d t]; [exact K|]. simpl. rewrite Pt. exact K.
  - simpl in Pr. apply andb_true_iff in Pr. destruct Pr as [Px Pr].
    simpl. rewrite Px. rewrite (IH (acc ++ [x]) Pr Pt); [reflexivity|].
    rewrite <- app_assoc. exact K.
Qed.

Lemma headingPattern_sound (line h : jsstring) :
  headingPattern line = Some h ->
  heading_shaped h /\ (line = h \/ line = h ++ [58%N]).
Proof.
  unfold headingPattern. destruct line as [|c rest]; [discriminate|].
  destruct (is_upper c) eqn:U; [|discriminate].
  intros K. apply chars_then_sound in K.
  destruct K as [run [tail [-> [Pr K]]]]. simpl app in K.
  destruct (Nat.leb 2 (List.length run)) eqn:L; [|discriminate].
  apply Nat.leb_le in L.
  destruct tail as [|d [|d' t]]; try discriminate.
  - injection K as <-. rewrite app_nil_r.
    split; [simpl; auto | left; reflexivity].
  - destruct (N.eqb_spec d 58); [|discriminate]. subst d.
    injection K as <-. split; [simpl; auto | right; reflexivity].
Qed.

Lemma headingPattern_complete (h : jsstring) :
  heading_shaped h -> headingPattern (h ++ [58%N]) = Some h.
Proof.
  destruct h as [|c run]; [intros []|]. intros [U [Pr L]].
  unfold headingPattern. rewrite <- app_comm_cons, U.
  apply chars_then_greedy; [exact Pr | reflexivity|].
  simpl app. apply Nat.leb_le in L. rewrite L.
  rewrite N.eqb_refl. reflexivity.
Qed.

Lemma first_heading_sound (lines : list jsstring) (h : jsstring) :
  first_heading lines = Some h ->
  exists line, In line lines /\ headingPattern line = Some h.
Proof.
  induction lines as [|l lines IH]; simpl; [discriminate|].
  destruct (headingPattern l) as [h'|] eqn:P.
  - intros [= ->]. exists l; auto.
  - intros F. destruct (IH F) as [line [Hin Hp]]. exists line; auto.
Qed.

(** *** The lines of a chunk *)

Lemma lines_of_elements (content line : jsstring) :
  In line (lines_of content) ->
  line <> [] /\ trim line = line /\ starts_clean line.
Proof.
  unfold lines_of. intros Hin. apply filter_In in Hin.
  destruct Hin as [Hin Hne]. apply in_map_iff in Hin.
  destruct Hin as [x [<- _]].
  split; [destruct (trim x); discriminate|].
  split; [apply trim_idempotent | apply trim_starts_clean].
Qed.

Lemma firstn_cons_nonempty {A} (n : nat) (x : A) (l : list A) :
  firstn (S n) (x :: l) = x :: firstn n l.
Proof. reflexivity. Qed.

(** X12. A section title is never empty and never begins with white
    space, whatever the chunk. *)
Theorem section_title_is_nonempty (content : jsstring) :
  deriveSectionTitle content <> [] /\ starts_clean (deriveSectionTitle content).
Proof.
  unfold deriveSectionTitle.
  destruct (lines_of content) as [|first rest] eqn:L;
    [split; [discriminate | reflexivity]|].
  destruct (first_heading (firstn 6 (first :: rest))) as [h|] eqn:F.
  - apply first_heading_sound in F. destruct F as [line [_ P]].
    apply headingPattern_sound in P. destruct P as [Sh _].
    destruct h as [|c run]; [destruct Sh|].
    split; [discriminate|]. simpl. apply upper_not_space. apply Sh.
  - assert (Hin : In first (lines_of content)) by (rewrite L; left; reflexivity).
    apply lines_of_elements in Hin. destruct Hin as [Hne [_ Hc]].
    destruct first as [|c t]; [congruence|].
    split; [discriminate | exact Hc].
Qed.

(** X13. A section title is one of three things: ["General"], when the
    chunk has no line that is not blank; the heading of one of the first
    six non-blank lines, which is that line without its final colon, an
    upper-case letter followed by at least two letters, digits, spaces,
    ampersands, slashes or hyphens; or else the first 80 code units of
    the first non-blank line. *)
Theorem section_title_cases (content : jsstring) :
  (lines_of content = [] /\ deriveSectionTitle content = js "General") \/
  (exists line,
     In line (firstn 6 (lines_of content)) /\
     heading_shaped (deriveSectionTitle content) /\
     (line = deriveSectionTitle content \/
      line = deriveSectionTitle content ++ [58%N])) \/
  (exists first rest,
     lines_of content = first :: rest /\
     first_heading (firstn 6 (lines_of content)) = None /\
     deriveSectionTitle content = firstn 80 first /\
     List.length (deriveSectionTitle content) <= 80).
Proof.
  unfold deriveSectionTitle.
  destruct (lines_of content) as [|first rest] eqn:L; [left; auto|].
  right.
  destruct (first_heading (firstn 6 (first :: rest))) as [h|] eqn:F.
  - left. apply first_heading_sound in F. destruct F as [line [Hin P]].
    apply headingPattern_sound in P. destruct P as [Sh Hl].
    exists line; auto.
  - right. exists first, rest.
    repeat split; try reflexivity. apply firstn_le_length.
Qed.

(** *** Blank chunks *)

Lemma trimStart_blank (s : jsstring) :
  forallb isWhiteSpace s = true -> trimStart s = [].
Proof.
  induction s as [|c s IH]; [reflexivity|].
  simpl. intros W. apply andb_true_iff in W. destruct W as [-> W].
  apply IH; exact W.
Qed.

Lemma trim_blank (s : jsstring) :
  forallb isWhiteSpace s = true -> trim s = [].
Proof. intros W. unfold trim. rewrite (trimStart_blank s W). reflexivity. Qed.

Lemma split_lines_forall (p : code_unit -> bool) (n : nat) (s : jsstring) :
  List.length s <= n ->
  forallb p s = true ->
  Forall (fun line => forallb p line = true) (split_lines s).
Proof.
  revert s; induction n as [|n IH]; intros s Hlen Hp.
  - destruct s; [|simpl in Hlen; lia]. repeat constructor.
  - destruct s as [|c s]; [repeat constructor|].
    simpl in Hlen, Hp. apply andb_true_iff in Hp. destruct Hp as [Pc Ps].
    assert (Keep : Forall (fun line => forallb p line = true)
                     match split_lines s with
                     | line :: lines => (c :: line) :: lines
                     | [] => [[c]]
                     end).
    { pose proof (IH s ltac:(lia) Ps) as F.
      destruct (split_lines s) as [|line lines].
      - constructor; [simpl; rewrite Pc; reflexivity | constructor].
      - inversion F; subst. constructor; [simpl; rewrite Pc; assumption|].
        assumption. }
    cbn [split_lines].
    destruct (N.eqb c 10).
    { constructor; [reflexivity | apply IH; [lia | exact Ps]]. }
    destruct (N.eqb c 13); [|exact Keep].
    destruct s as [|d s']; [exact Keep|].
    destruct (N.eqb d 10); [|exact Keep].
    simpl in Hlen, Ps. apply andb_true_iff in Ps. destruct Ps as [_ Ps'].
    constructor; [reflexivity | apply IH; [lia | exact Ps']].
Qed.

(** X14. A chunk of white space only, line ends included, is titled
    ["General"]. *)
Theorem blank_chunk_is_general (content : jsstring) :
  forallb isWhiteSpace content = true ->
  deriveSectionTitle content = js "General".
Proof.
  intros W.
  assert (L : lines_of content = []).
  { unfold lines_of.
    pose proof (split_lines_forall isWhiteSpace (List.length content) content
                  (le_n _) W) as F.
    induction F as [|line lines Hl _ IH]; [reflexivity|].
    simpl. rewrite (trim_blank line Hl). exact IH. }
  unfold deriveSectionTitle. rewrite L. reflexivity.
Qed.

(** *** Heading lines *)

Lemma split_lines_cons (c : code_unit) (s : jsstring) :
  split_lines (c :: s) =
  if N.eqb c 10 then [] :: split_lines s
  else
    let keep :=
      match split_lines s with
      | line :: lines => (c :: line) :: lines
      | [] => [[c]]
      end in
    if N.eqb c 13 then
      match s with
      | d :: s'' => if N.eqb d 10 then [] :: split_lines s'' else keep
      | [] => keep
      end
    else keep.
Proof. reflexivity. Qed.

Lemma split_lines_first (line body : jsstring) :
  Forall (fun c => N.eqb c 10 = false /\ N.eqb c 13 = false) line ->
  split_lines (line ++ 10%N :: body) = line :: split_lines body.
Proof.
  induction 1 as [|c line [C10 C13] _ IH]; [reflexivity|].
  rewrite <- app_comm_cons, split_lines_cons, C10, C13.
  cbv beta iota zeta. unfold jsstring, code_unit in *.
  rewrite IH. reflexivity.
Qed.

Lemma trim_clean (s : jsstring) :
  starts_clean s -> ends_clean s -> trim s = s.
Proof.
  intros Sc Ec. unfold trim. rewrite (trimStart_id s Sc).
  unfold trimEnd. rewrite (trimStart_id (rev s) Ec). apply rev_involutive.
Qed.

(** X15. A chunk that opens with a heading line, that is a heading
    followed by a colon and a line feed, is titled with that heading,
    without the colon, whatever follows. *)
Theorem heading_line_gives_the_title (h body : jsstring) :
  heading_shaped h ->
  deriveSectionTitle (h ++ [58%N] ++ LF ++ body) = h.
Proof.
  intros Sh. pose proof (headingPattern_complete h Sh) as P.
  destruct h as [|c run]; [destruct Sh|]. destruct Sh as [U [Pr L]].
  assert (Split : split_lines (((c :: run) ++ [58%N]) ++ 10%N :: body)
                  = ((c :: run) ++ [58%N]) :: split_lines body).
  { apply split_lines_first. apply Forall_app; split.
    - constructor; [apply upper_not_terminator; exact U|].
      apply Forall_forall. intros x Hx. apply heading_char_not_terminator.
      rewrite forallb_forall in Pr. apply Pr; exact Hx.
    - constructor; [split; reflexivity | constructor]. }
  assert (T : trim ((c :: run) ++ [58%N]) = (c :: run) ++ [58%N]).
  { apply trim_clean.
    - simpl. apply upper_not_space; exact U.
    - unfold ends_clean. rewrite rev_app_distr. reflexivity. }
  assert (Eq : (c :: run) ++ [58%N] ++ LF ++ body
               = ((c :: run) ++ [58%N]) ++ 10%N :: body)
    by (rewrite <- app_assoc; reflexivity).
  assert (Lines : lines_of ((c :: run) ++ [58%N] ++ LF ++ body)
                  = ((c :: run) ++ [58%N]) :: lines_of body).
  { unfold lines_of. rewrite Eq, Split. cbn [map]. rewrite T.
    rewrite <- app_comm_cons. reflexivity. }
  unfold deriveSectionTitle. rewrite Lines.
  rewrite firstn_cons_nonempty. cbn [first_heading].
  rewrite P. reflexivity.
Qed.

End TitleLaws.

(* ----------------------------------------------------------------- *)
(** ** The ingestion route: chunk metadata and what is stored *)

Module IngestLaws.
Import Retriever Normalizer Ingest RetrieverFacts.

Section Laws.
Context {number : Type} `{Engine number}.
Variable Number_of_nat : nat -> number.

(** *** Defining and spreading properties *)

Lemma jseqb_trans_eq (a b c : jsstring) :
  jseqb a b = true -> jseqb a c = jseqb b c.
Proof. intros E. apply jseqb_eq in E. subst; reflexivity. Qed.

Lemma own_property_define (key k : jsstring) (v : value number)
    (props : list (jsstring * value number)) :
  own_property k (Reference.define_property key v props)
  = if jseqb key k then Some v else own_property k props.
Proof.
  induction props as [|[k0 old] props IH]; simpl.
  - reflexivity.
  - destruct (jseqb k0 key) eqn:E; simpl.
    + rewrite (jseqb_trans_eq k0 key k E).
      destruct (jseqb key k); reflexivity.
    + rewrite IH. destruct (jseqb k0 k) eqn:E0; [|reflexivity].
      destruct (jseqb key k) eqn:E1; [|reflexivity].
      apply jseqb_eq in E0, E1. subst.
      rewrite jseqb_refl in E. discriminate.
Qed.

Lemma own_property_In (k : jsstring) (props : list (jsstring * value number))
    (kv : jsstring * value number) :
  In kv props -> jseqb (fst kv) k = true -> own_property k props <> None.
Proof.
  induction props as [|[k0 v0] props IH]; [intros []|].
  intros [<- | Hin] E; simpl in *.
  - rewrite E. discriminate.
  - destruct (jseqb k0 k); [discriminate | apply IH; assumption].
Qed.

Lemma own_property_none (k : jsstring) (props : list (jsstring * value number)) :
  own_property k props = None ->
  forall kv, In kv props -> jseqb (fst kv) k = false.
Proof.
  intros N kv Hin. destruct (jseqb (fst kv) k) eqn:E; [|reflexivity].
  destruct (own_property_In k props kv Hin E N).
Qed.

(** Copying the entries [ps] of an object onto [acc]. *)
Lemma own_property_copy (props ps acc : list (jsstring * value number))
    (k : jsstring) :
  incl ps props ->
  own_property k
    (fold_left
       (fun acc kv =>
          Reference.define_property (fst kv)
            (match own_property (fst kv) props with
             | Some v => v
             | None => snd kv
             end) acc)
       ps acc)
  = if existsb (fun kv => jseqb (fst kv) k) ps
    then own_property k props
    else own_property k acc.
Proof.
  revert acc; induction ps as [|kv ps IH]; intros acc Hincl; [reflexivity|].
  cbn [fold_left existsb].
  rewrite IH by (intros x Hx; apply Hincl; right; exact Hx).
  destruct (existsb (fun kv0 => jseqb (fst kv0) k) ps) eqn:Ex.
  - rewrite orb_true_r. reflexivity.
  - rewrite orb_false_r, own_property_define.
    destruct (jseqb (fst kv) k) eqn:E; [|reflexivity].
    apply jseqb_eq in E. subst k.
    destruct (own_property (fst kv) props) eqn:O; [reflexivity|].
    exfalso. apply (own_property_In (fst kv) props kv);
      [apply Hincl; left; reflexivity | apply jseqb_refl | exact O].
Qed.

(** A spread gives precedence to its source, key by key. *)
Lemma own_property_spread (target : list (jsstring * value number))
    (source : value number) (k : jsstring) :
  own_property k (spread target source)
  = match own_property k (spread_source source) with
    | Some v => Some v
    | None => own_property k target
    end.
Proof.
  unfold spread. rewrite own_property_copy by apply incl_refl.
  destruct (existsb (fun kv => jseqb (fst kv) k) (spread_source source))
    eqn:Ex.
  - apply existsb_exists in Ex. destruct Ex as [kv [Hin E]].
    destruct (own_property k (spread_source source)) eqn:O; [reflexivity|].
    destruct (own_property_In k _ kv Hin E O).
  - destruct (own_property k (spread_source source)) eqn:O; [|reflexivity].
    exfalso.
    assert (N : own_property k (spread_source source) = None).
    { clear O. induction (spread_source source) as [|[k0 v0] l IH];
        [reflexivity|].
      simpl in Ex. apply orb_false_iff in Ex. destruct Ex as [E0 Ex].
      simpl. rewrite E0. apply IH; exact Ex. }
    congruence.
Qed.

(** *** The enriched chunks *)

Lemma enrich_from_In (user_id job_posting_id source_type : jsstring)
    (metadata : value number) (clock : nat -> jsstring) (total index : nat)
    (chunks : list jsstring) (d : Document number) :
  In d (enrich_from Number_of_nat user_id job_posting_id source_type metadata
          clock total index chunks) ->
  exists i content,
    In content chunks /\
    d = {| pageContent := content;
           metadata :=
             chunk_metadata Number_of_nat user_id job_posting_id source_type
               i total (clock i) (deriveSectionTitle content) metadata |}.
Proof.
  revert index; induction chunks as [|content chunks IH]; intros index;
    [intros []|].
  intros [<- | Hin].
  - exists index, content; split; [left; reflexivity | reflexivity].
  - destruct (IH _ Hin) as [i [c [Hc E]]].
    exists i, c; split; [right; exact Hc | exact E].
Qed.

Lemma enrich_from_nth (user_id job_posting_id source_type : jsstring)
    (metadata : value number) (clock : nat -> jsstring) (total index : nat)
    (chunks : list jsstring) (i : nat) (content : jsstring) :
  nth_error chunks i = Some content ->
  nth_error (enrich_from Number_of_nat user_id job_posting_id source_type
               metadata clock total index chunks) i
  = Some {| pageContent := content;
            metadata :=
              chunk_metadata Number_of_nat user_id job_posting_id source_type
                (index + i) total (clock (index + i))
                (deriveSectionTitle content) metadata |}.
Proof.
  revert index i; induction chunks as [|c chunks IH]; intros index i.
  - destruct i; discriminate.
  - destruct i as [|i]; simpl.
    + intros [= ->]. rewrite Nat.add_0_r. reflexivity.
    + intros Hn. rewrite (IH (S index) i Hn).
      rewrite Nat.add_succ_comm. reflexivity.
Qed.

Lemma enrich_from_length (user_id job_posting_id source_type : jsstring)
    (metadata : value number) (clock : nat -> jsstring) (total index : nat)
    (chunks : list jsstring) :
  List.length (enrich_from Number_of_nat user_id job_posting_id source_type
                 metadata clock total index chunks)
  = List.length chunks.
Proof.
  revert index; induction chunks as [|c chunks IH]; intros index;
    [reflexivity|].
  simpl. rewrite IH. reflexivity.
Qed.

(** X16. In the metadata of an enriched chunk the metadata of the
    request wins, key by key, over the fields the route computes: a key
    the request's metadata defines keeps the request's value, also when
    it is [user_id] or [job_posting_id], and the computed value is
    stored only under a key the request's metadata does not define. *)
Theorem request_metadata_overrides (user_id job_posting_id source_type : jsstring)
    (metadata : value number) (clock : nat -> jsstring)
    (chunks : list jsstring) (d : Document number) (key : jsstring) :
  In d (enrichedChunks Number_of_nat user_id job_posting_id source_type
          metadata clock chunks) ->
  exists i,
    i < List.length chunks /\
    Retriever.metadata d
    = chunk_metadata Number_of_nat user_id job_posting_id source_type i
        (List.length chunks) (clock i) (deriveSectionTitle (pageContent d))
        metadata /\
    get_optional (Retriever.metadata d) key
    = match own_property key (spread_source metadata) with
      | Some v => v
      | None =>
          get_optional
            (chunk_metadata Number_of_nat user_id job_posting_id source_type
               i (List.length chunks) (clock i)
               (deriveSectionTitle (pageContent d)) (VObj []))
            key
      end.
Proof.
  unfold enrichedChunks. intros Hin.
  apply In_nth_error in Hin. destruct Hin as [i Hi].
  assert (Hlt : i < List.length chunks).
  { rewrite <- (enrich_from_length user_id job_posting_id source_type
                  metadata clock (List.length chunks) 0 chunks).
    apply nth_error_Some. rewrite Hi. discriminate. }
  destruct (nth_error chunks i) as [content|] eqn:Hc;
    [|apply nth_error_None in Hc; lia].
  rewrite (enrich_from_nth _ _ _ _ _ _ 0 _ _ _ Hc) in Hi.
  injection Hi as <-. cbn [pageContent Retriever.metadata Nat.add].
  exists i. split; [exact Hlt|]. split; [reflexivity|].
  unfold chunk_metadata, get_optional.
  rewrite !own_property_spread. cbn [spread_source own_property].
  destruct (own_property key (spread_source metadata)); reflexivity.
Qed.

(** X17. Ingestion and extraction fit together: when the request's
    metadata defines neither [user_id] nor [job_posting_id], every
    enriched chunk passes the filter of an extraction for the same user
    whose list of posting ids holds the id of the ingested posting. *)
Theorem ingested_chunks_are_in_scope
    (user_id job_posting_id source_type : jsstring)
    (metadata : value number) (clock : nat -> jsstring)
    (chunks : list jsstring) (job_posting_ids : list jsstring)
    (d : Document number) :
  own_property (js "user_id") (spread_source metadata) = None ->
  own_property (js "job_posting_id") (spread_source metadata) = None ->
  In job_posting_id job_posting_ids ->
  In d (enrichedChunks Number_of_nat user_id job_posting_id source_type
          metadata clock chunks) ->
  post_filter user_id job_posting_ids d = true /\
  in_scope user_id job_posting_ids d.
Proof.
  intros Nu Nj Hid Hin.
  assert (K : post_filter user_id job_posting_ids d = true).
  { unfold enrichedChunks in Hin. apply enrich_from_In in Hin.
    destruct Hin as [i [content [_ ->]]].
    unfold post_filter. cbn [Retriever.metadata].
    unfold chunk_metadata, get_optional.
    rewrite !own_property_spread, Nu, Nj. cbn [own_property].
    replace (jseqb (js "user_id") (js "user_id")) with true by reflexivity.
    replace (jseqb (js "user_id") (js "job_posting_id")) with false
      by reflexivity.
    replace (jseqb (js "job_posting_id") (js "job_posting_id")) with true
      by reflexivity.
    cbn [strictly_equals_string]. rewrite jseqb_refl. cbn [andb].
    apply orb_true_iff; right.
    apply includes_In. exists job_posting_id; auto. }
  split; [exact K | apply post_filter_in_scope; exact K].
Qed.

(** X18. The enriched chunks are the splitter's chunks, one document
    each and in order; when the request's metadata copies no property
    (absent, an empty object, or a value that is not an object, an array
    or a string), the document of chunk [i] records [i] as its index,
    the number of chunks as its total, the request's user, posting and
    source type, and the section title derived from its own text. *)
Theorem enriched_chunks_are_numbered
    (user_id job_posting_id source_type : jsstring)
    (metadata : value number) (clock : nat -> jsstring)
    (chunks : list jsstring) :
  List.length (enrichedChunks Number_of_nat user_id job_posting_id
                 source_type metadata clock chunks)
  = List.length chunks /\
  map (@pageContent number)
    (enrichedChunks Number_of_nat user_id job_posting_id source_type
       metadata clock chunks)
  = chunks /\
  (spread_source metadata = [] ->
   forall i content,
     nth_error chunks i = Some content ->
     nth_error (enrichedChunks Number_of_nat user_id job_posting_id
                  source_type metadata clock chunks) i
     = Some {| pageContent := content;
               metadata :=
                 VObj [ (js "user_id", VStr user_id);
                        (js "job_posting_id", VStr job_posting_id);
                        (js "source_type", VStr source_type);
                        (js "chunkIndex", VNum (Number_of_nat i));
                        (js "totalChunks",
                         VNum (Number_of_nat (List.length chunks)));
                        (js "ingestedAt", VStr (clock i));
                        (js "section_title",
                         VStr (deriveSectionTitle content)) ] |}).
Proof.
  unfold enrichedChunks.
  split; [apply enrich_from_length|]. split.
  - generalize (List.length chunks) as total. generalize 0 as index.
    induction chunks as [|c chunks IH]; intros index total; [reflexivity|].
    simpl. rewrite IH. reflexivity.
  - intros Empty i content Hc.
    rewrite (enrich_from_nth _ _ _ _ _ _ 0 _ _ _ Hc). cbn [Nat.add].
    unfold chunk_metadata, spread. rewrite Empty. reflexivity.
Qed.

End Laws.

End IngestLaws.

(* ----------------------------------------------------------------- *)
(** ** The ingestion handler: what reaches the tables *)

Module IngestHandlerLaws.
Import Retriever Normalizer Ingest IngestLaws.

Section Laws.
Context {number : Type}.
Variable Number_of_nat : nat -> number.

Local Abbreviation POST := (Ingest.POST Number_of_nat).
Local Abbreviation store := (Ingest.store Number_of_nat).
Local Abbreviation enriched := (enrichedChunks Number_of_nat).

Lemma store_writes (w : World) (user_id source_type : jsstring)
    (sourceUrl : option jsstring) (metadata : value number)
    (rawContent : jsstring) (table : list JobPosting)
    (console : list ingest_event) :
  trim rawContent <> [] ->
  let r := store w user_id source_type sourceUrl metadata rawContent table
             console in
  let row := {| jp_user_id := user_id;
                jp_source_type := source_type;
                jp_source_url := sourceUrl;
                jp_raw_content := rawContent;
                jp_metadata := metadata |} in
  match job_insert_answer w with
  | Throw jobError =>
      res_response r = IngestionFailed jobError /\
      res_job_postings r = table /\ res_documents r = None
  | Return id =>
      res_job_postings r = table ++ [row] /\
      match splitter w rawContent with
      | [] =>
          res_response r = IngestionFailed cannot_read_metadata /\
          res_documents r = None
      | _ :: _ =>
          res_documents r
          = Some (enriched user_id id source_type metadata (clock w)
                    (splitter w rawContent)) /\
          match addDocuments_answer w with
          | Throw e => res_response r = IngestionFailed e
          | Return _ =>
              res_response r
              = Ingested id (List.length (splitter w rawContent))
                  (js "Successfully ingested "
                   ++ index_key (List.length (splitter w rawContent))
                   ++ js " chunks")
          end
      end
  end.
Proof.
  intros T. cbv zeta. unfold Ingest.store.
  destruct (trim rawContent) as [|c t]; [congruence|].
  destruct (job_insert_answer w) as [id|e] eqn:J;
    [|repeat split; reflexivity].
  pose proof (enrich_from_length Number_of_nat user_id id source_type
                metadata (clock w) (List.length (splitter w rawContent)) 0
                (splitter w rawContent)) as Len.
  fold (enriched user_id id source_type metadata (clock w)
          (splitter w rawContent)) in Len.
  remember (enriched user_id id source_type metadata (clock w)
              (splitter w rawContent)) as docs eqn:En.
  destruct (splitter w rawContent) as [|chunk chunks] eqn:S;
    destruct docs as [|d ds]; try discriminate Len.
  - repeat split; reflexivity.
  - destruct (addDocuments_answer w) as [u|e] eqn:A;
      repeat split; reflexivity.
Qed.

(** X19. The two writes of the ingestion handler are not atomic.  A
    response with status 400 leaves the [job_postings] table as it was
    and hands no document to the vector store, and so does a url request
    whose page cannot be loaded.  A request that passes the checks with a
    content that is not blank writes in two steps.  When the insert into
    [job_postings] fails, the response carries that error and nothing is
    stored.  When it succeeds, the table has grown by exactly one row,
    holding the user, the source type, the url of the request as it was
    sent (null when it is absent or empty), the whole content and the
    metadata of the request (an empty object when absent), whatever
    happens afterwards: if the splitter cuts no chunk the response is the
    error of reading [enrichedChunks[0]] and no document is handed over;
    if the vector store fails the response is its error; in both cases
    the row stays.  Only when the vector store accepts the enriched
    chunks is the response a success, counting the chunks. *)
Theorem ingestion_writes (w : World) (req : Request)
    (table : list JobPosting) :
  let r := POST w req table in
  (forall error,
     res_response r = BadRequest error ->
     res_job_postings r = table /\ res_documents r = None) /\
  (forall user_id url e,
     req_user_id req = Some user_id -> user_id <> [] ->
     req_source_type req = Some (js "url") ->
     req_url req = Some url -> url <> [] ->
     loader w url = Throw e ->
     res_response r
     = IngestionFailed
         (ServiceError (js "Failed to load URL: " ++ exn_message e)) /\
     res_job_postings r = table /\ res_documents r = None) /\
  (forall user_id source_type rawContent,
     req_user_id req = Some user_id -> user_id <> [] ->
     req_source_type req = Some source_type ->
     (source_type = js "text" /\ req_content req = Some rawContent) \/
     (source_type = js "url" /\
      exists url docs,
        req_url req = Some url /\ url <> [] /\
        loader w url = Return docs /\ rawContent = join_pages docs) ->
     trim rawContent <> [] ->
     let metadata :=
       match req_metadata req with Some m => m | None => VObj [] end in
     let row := {| jp_user_id := user_id;
                   jp_source_type := source_type;
                   jp_source_url :=
                     match req_url req with
                     | Some [] | None => None
                     | Some url => Some url
                     end;
                   jp_raw_content := rawContent;
                   jp_metadata := metadata |} in
     match job_insert_answer w with
     | Throw jobError =>
         res_response r = IngestionFailed jobError /\
         res_job_postings r = table /\ res_documents r = None
     | Return id =>
         res_job_postings r = table ++ [row] /\
         match splitter w rawContent with
         | [] =>
             res_response r = IngestionFailed cannot_read_metadata /\
             res_documents r = None
         | _ :: _ =>
             res_documents r
             = Some (enriched user_id id source_type metadata (clock w)
                       (splitter w rawContent)) /\
             match addDocuments_answer w with
             | Throw e => res_response r = IngestionFailed e
             | Return _ =>
                 res_response r
                 = Ingested id (List.length (splitter w rawContent))
                     (js "Successfully ingested "
                      ++ index_key (List.length (splitter w rawContent))
                      ++ js " chunks")
             end
         end
     end).
Proof.
  cbv zeta. split; [|split].
  - intros error. unfold Ingest.POST.
    destruct (req_user_id req) as [[|c u]|];
      try (intros _; split; reflexivity).
    destruct (req_source_type req) as [source_type|];
      [|intros _; split; reflexivity].
    assert (S : forall sourceUrl metadata rawContent console,
               res_response (store w (c :: u) source_type sourceUrl metadata
                               rawContent table console) = BadRequest error ->
               res_job_postings (store w (c :: u) source_type sourceUrl
                                   metadata rawContent table console) = table /\
               res_documents (store w (c :: u) source_type sourceUrl
                                metadata rawContent table console) = None).
    { intros sourceUrl metadata rawContent console. unfold Ingest.store.
      destruct (trim rawContent); [intros _; split; reflexivity|].
      destruct (job_insert_answer w); [|discriminate].
      destruct (enriched _ _ _ _ _ _); [discriminate|].
      destruct (addDocuments_answer w); discriminate. }
    destruct (jseqb source_type (js "text")).
    { destruct (req_content req) as [[|x content]|];
        try (intros _; split; reflexivity).
      apply S. }
    destruct (jseqb source_type (js "url")); [|intros _; split; reflexivity].
    destruct (req_url req) as [[|x url]|];
      try (intros _; split; reflexivity).
    destruct (loadFromUrl w (x :: url)) as [docs|e]; [apply S|discriminate].
  - intros user_id url e Hu Hu0 Hs Hurl Hurl0 L.
    unfold Ingest.POST. rewrite Hu, Hs, Hurl.
    destruct user_id as [|c u]; [congruence|].
    destruct url as [|x url]; [congruence|].
    replace (jseqb (js "url") (js "text")) with false by reflexivity.
    replace (jseqb (js "url") (js "url")) with true by reflexivity.
    unfold loadFromUrl. rewrite L. repeat split; reflexivity.
  - intros user_id source_type rawContent Hu Hu0 Hs Hc T.
    destruct user_id as [|c u]; [congruence|].
    destruct Hc as [[-> Hc] | [-> [url [docs [Hurl [Hurl0 [L ->]]]]]]].
    + destruct rawContent as [|x content]; [exfalso; apply T; reflexivity|].
      unfold Ingest.POST. rewrite Hu, Hs, Hc.
      replace (jseqb (js "text") (js "text")) with true by reflexivity.
      pose proof (store_writes w (c :: u) (js "text")
                    match req_url req with
                    | Some (c0 :: url) => Some (c0 :: url)
                    | _ => None
                    end
                    match req_metadata req with
                    | Some m => m
                    | None => VObj []
                    end (x :: content) table [IngestionRequest] T) as W.
      cbv zeta in W.
      destruct (req_url req) as [[|y url]|]; exact W.
    + destruct url as [|x url]; [congruence|].
      unfold Ingest.POST. rewrite Hu, Hs, Hurl.
      replace (jseqb (js "url") (js "text")) with false by reflexivity.
      replace (jseqb (js "url") (js "url")) with true by reflexivity.
      unfold loadFromUrl. rewrite L.
      exact (store_writes w (c :: u) (js "url") (Some (x :: url))
               match req_metadata req with
               | Some m => m
               | None => VObj []
               end (join_pages docs) table [IngestionRequest] T).
Qed.

(** X20. A text request whose content is white space only is refused
    with status 400 and nothing is stored, although the content is not
    the empty string. *)
Theorem blank_text_is_refused (w : World) (req : Request)
    (table : list JobPosting) (user_id content : jsstring) :
  req_user_id req = Some user_id -> user_id <> [] ->
  req_source_type req = Some (js "text") ->
  req_content req = Some content -> content <> [] ->
  forallb isWhiteSpace content = true ->
  res_response (POST w req table) = BadRequest (js "No content to process") /\
  res_job_postings (POST w req table) = table /\
  res_documents (POST w req table) = None.
Proof.
  intros Hu Hu0 Hs Hc Hc0 W.
  unfold Ingest.POST. rewrite Hu, Hs, Hc.
  destruct user_id as [|c u]; [congruence|].
  destruct content as [|x content]; [congruence|].
  replace (jseqb (js "text") (js "text")) with true by reflexivity.
  unfold Ingest.store. rewrite (TitleLaws.trim_blank _ W).
  repeat split; reflexivity.
Qed.

End Laws.

End IngestHandlerLaws.

(* ----------------------------------------------------------------- *)
(** ** The further properties at sample inputs *)

Module LawWitnesses.
Import Retriever Parser Normalizer Route.

Lemma interior_is_trimmed_and_fence_free_witness :
  jsonMatch fenced_example = Some bare_example /\
  starts_clean bare_example /\ ends_clean bare_example /\
  ~ contains fence bare_example.
Proof.
  split; [reflexivity|].
  exact (ParserLaws.interior_is_trimmed_and_fence_free
           fenced_example bare_example eq_refl).
Defined.

Lemma fenced_text_is_recovered_witness :
  jsonContent padded_answer = js "[1, 2]".
Proof.
  exact (ParserLaws.fenced_text_is_recovered
           (js "Here it is: ") LF (js "  [1, 2]  ") LF (js " Done.")
           eq_refl eq_refl eq_refl eq_refl).
Defined.

Lemma normalizedArray_returns_trimmed_strings_witness :
  Forall (fun s => trim s = s /\ s <> []) [js "Python"; js "42"] /\
  List.length [js "Python"; js "42"] <= 3.
Proof.
  exact (NormalizerLaws.normalizedArray_returns_trimmed_strings
           tools_example [js "Python"; js "42"] eq_refl).
Defined.

Lemma normalizedArray_idempotent_witness :
  normalizedArray (VArr [VStr (js "Python"); VStr (js "42")] : value Z)
  = Return [js "Python"; js "42"].
Proof.
  exact (NormalizerLaws.normalizedArray_idempotent
           tools_example [js "Python"; js "42"] eq_refl).
Defined.

Lemma scalars_are_raw_or_default_witness :
  exists r,
    validatedInsights (principal_insights : value Z) (js "now") [js "doc1"]
    = Return r /\
    role_title r = VStr (js "Unknown Role") /\
    seniority_level r = VStr (js "principal").
Proof.
  eexists; split; [reflexivity|].
  pose proof (NormalizerLaws.scalars_are_raw_or_default
                (principal_insights : value Z) (js "now") [js "doc1"] _
                eq_refl) as [R [S _]].
  split; [exact R | exact S].
Defined.

Lemma stored_rows_stay_well_formed_witness :
  Forall row_well_formed (snd (fst (POST scenario_world sample_request []))).
Proof.
  exact (RouteLaws.stored_rows_stay_well_formed
           scenario_world sample_request [] (Forall_nil _)).
Defined.

Lemma blank_chunk_is_general_witness :
  Ingest.deriveSectionTitle blank_chunk = js "General".
Proof.
  exact (TitleLaws.blank_chunk_is_general blank_chunk eq_refl).
Defined.

Lemma heading_line_gives_the_title_witness :
  Ingest.deriveSectionTitle skills_chunk = js "Required Skills".
Proof.
  refine (TitleLaws.heading_line_gives_the_title
            (js "Required Skills") (js "- Go" ++ LF ++ js "- SQL") _).
  split; [reflexivity|]. split; [reflexivity|]. simpl. lia.
Defined.

Lemma request_metadata_overrides_witness :
  exists d,
    In d overridden_chunks /\
    get_optional (metadata d) (js "user_id") = VStr (js "u2").
Proof.
  destruct overridden_chunks as [|d ds] eqn:E; [discriminate|].
  exists d. split; [left; reflexivity|].
  assert (Hin : In d overridden_chunks) by (rewrite E; left; reflexivity).
  destruct (IngestLaws.request_metadata_overrides Z.of_nat
              (js "u1") (js "doc1") (js "text")
              (VObj [(js "user_id", VStr (js "u2"))])
              (Ingest.clock one_chunk_world) [skills_chunk] d (js "user_id")
              Hin) as [i [_ [_ K]]].
  exact K.
Defined.

Lemma ingested_chunks_are_in_scope_witness :
  forallb (post_filter (js "u1") [js "doc1"]) plain_chunks = true.
Proof.
  apply forallb_forall. intros d Hd.
  exact (proj1 (IngestLaws.ingested_chunks_are_in_scope Z.of_nat
                  (js "u1") (js "doc1") (js "text") (VObj [])
                  (Ingest.clock one_chunk_world) [skills_chunk; blank_chunk]
                  [js "doc1"] d eq_refl eq_refl
                  (or_introl eq_refl) Hd)).
Defined.

Lemma blank_text_is_refused_witness :
  Ingest.res_response (Ingest.POST Z.of_nat one_chunk_world blank_request [])
  = Ingest.BadRequest (js "No content to process").
Proof.
  refine (proj1 (IngestHandlerLaws.blank_text_is_refused Z.of_nat
                   one_chunk_world blank_request [] (js "u1") blank_chunk
                   eq_refl _ eq_refl eq_refl _ eq_refl)); discriminate.
Defined.

Lemma ingestion_writes_witness :
  Ingest.res_response
    (Ingest.POST Z.of_nat failing_store_world url_request [])
  = Ingest.IngestionFailed (ServiceError (js "vector store is down")) /\
  Ingest.res_job_postings
    (Ingest.POST Z.of_nat failing_store_world url_request [])
  = [{| Ingest.jp_user_id := js "u1";
        Ingest.jp_source_type := js "url";
        Ingest.jp_source_url := Some (js "https://example.com/job");
        Ingest.jp_raw_content := skills_chunk;
        Ingest.jp_metadata := VObj [] |}].
Proof.
  assert (T : trim skills_chunk <> []) by discriminate.
  assert (U : js "u1" <> []) by discriminate.
  assert (L : js "https://example.com/job" <> []) by discriminate.
  pose proof (proj2 (proj2 (IngestHandlerLaws.ingestion_writes Z.of_nat
                              failing_store_world url_request []))
                (js "u1") (js "url") skills_chunk eq_refl U eq_refl
                (or_intror
                   (conj eq_refl
                      (ex_intro _ (js "https://example.com/job")
                         (ex_intro _ [skills_chunk]
                            (conj eq_refl
                               (conj L (conj eq_refl eq_refl)))))))
                T) as [Row [_ Response]].
  split; [exact Response | exact Row].
Defined.

End LawWitnesses.

(* ----------------------------------------------------------------- *)
(** ** The two copies of the normalizer, record by record *)

Module LegacyRouteLaws.
Import Normalizer NormalizerFacts LegacyFacts.

Section Laws.
Context {number : Type} `{Engine number}.

Lemma normalizedArray_via_legacy (v : value number) :
  Normalizer.normalizedArray v
  = (l <- Legacy.normalizedArray v ;; Return (filter nonempty (map trim l))).
Proof.
  destruct v; try reflexivity.
  - simpl. destruct (trim s) as [|c t] eqn:T; [reflexivity|].
    cbn [nonempty bind map filter]. rewrite <- T, trim_idempotent, T.
    reflexivity.
  - unfold Normalizer.normalizedArray, Legacy.normalizedArray.
    rewrite mapM_callback, mapM_legacy_callback.
    destruct (mapM ToString items) as [strs|e]; [|reflexivity].
    cbn [bind]. rewrite filter_trim_filter. reflexivity.
Qed.

Lemma list_field_via_legacy (raw : value number) (sentinel : jsstring) :
  trim sentinel = sentinel -> sentinel <> [] ->
  Normalizer.list_field raw sentinel
  = (l <- LegacyRoute.list_field raw sentinel ;;
     Return (LegacyRoute.retrimmed l sentinel)).
Proof.
  intros Ts Ns. unfold Normalizer.list_field, LegacyRoute.list_field.
  rewrite normalizedArray_via_legacy.
  destruct (Legacy.normalizedArray raw) as [l|e]; [|reflexivity].
  cbn [bind]. f_equal. unfold LegacyRoute.retrimmed.
  destruct l as [|x l]; [|reflexivity].
  cbn [or_default map filter]. rewrite Ts.
  destruct sentinel; [congruence | reflexivity].
Qed.

Lemma not_specified_trimmed : trim not_specified = not_specified.
Proof. reflexivity. Qed.

Lemma responsibilities_not_specified_trimmed :
  trim responsibilities_not_specified = responsibilities_not_specified.
Proof. reflexivity. Qed.

(** X21. The two copies of [validatedInsights] fail together, with the
    same error, and return together.  When they return, the scalars, the
    time stamp and the source count are equal, and every list field of
    the current record is the field of the older record trimmed again:
    each element trimmed, the elements that trimming empties dropped, and
    the field's sentinel put back when nothing is left. *)
Theorem validatedInsights_retrims_legacy (insights : value number)
    (now : jsstring) (ids : list jsstring) :
  match LegacyRoute.validatedInsights insights now ids,
        Normalizer.validatedInsights insights now ids with
  | Return old, Return new =>
      role_title new = role_title old /\
      seniority_level new = seniority_level old /\
      industry_context new = industry_context old /\
      extracted_at new = extracted_at old /\
      sources_analyzed new = sources_analyzed old /\
      about_section new
      = LegacyRoute.retrimmed (about_section old) not_specified /\
      responsibilities_section new
      = LegacyRoute.retrimmed (responsibilities_section old) not_specified /\
      qualifications_section new
      = LegacyRoute.retrimmed (qualifications_section old) not_specified /\
      core_responsibilities new
      = LegacyRoute.retrimmed (core_responsibilities old)
          responsibilities_not_specified /\
      technical (required_skills new)
      = LegacyRoute.retrimmed (technical (required_skills old))
          not_specified /\
      soft_skills (required_skills new)
      = LegacyRoute.retrimmed (soft_skills (required_skills old))
          not_specified /\
      tools_technologies new
      = LegacyRoute.retrimmed (tools_technologies old) not_specified /\
      key_success_metrics new
      = LegacyRoute.retrimmed (key_success_metrics old) not_specified /\
      hiring_signals new
      = LegacyRoute.retrimmed (hiring_signals old) not_specified /\
      collaboration_aspects new
      = LegacyRoute.retrimmed (collaboration_aspects old) not_specified
  | Throw e, Throw e' => e = e'
  | _, _ => False
  end.
Proof.
  unfold LegacyRoute.validatedInsights, Normalizer.validatedInsights, skill.
  destruct (get insights (js "about_section")) as [raw_about|e] eqn:G;
    [|destruct insights; try discriminate; reflexivity].
  assert (Gets : forall key,
            get insights key = Return (get_optional insights key)).
  { intros key. destruct insights; try discriminate; reflexivity. }
  rewrite !Gets. cbn [bind].
  rewrite !(list_field_via_legacy _ not_specified
              not_specified_trimmed not_specified_nonempty).
  rewrite !(list_field_via_legacy _ responsibilities_not_specified
              responsibilities_not_specified_trimmed
              responsibilities_not_specified_nonempty).
  repeat match goal with
         | |- context [LegacyRoute.list_field ?raw ?sentinel] =>
             destruct (LegacyRoute.list_field raw sentinel) as [?l|?e];
             cbn [bind]; [|reflexivity]
         end.
  cbn. repeat split; reflexivity.
Qed.

End Laws.

End LegacyRouteLaws.

(* ----------------------------------------------------------------- *)
(** ** Answers without fences *)

Module BareAnswerLaws.
Import Parser ParserFacts ParserLaws.

Lemma regex_match_no_backtick (opening raw : jsstring) :
  no_backtick raw = true ->
  (exists rest, opening = 96%N :: rest) ->
  regex_match opening raw = None.
Proof.
  intros Hb Ho.
  rewrite <- (app_nil_r raw), (regex_match_after_prose opening raw [] Hb Ho).
  destruct Ho as [rest ->]. reflexivity.
Qed.

(** X22. An answer that holds no backtick is handed to [JSON.parse]
    whole, white space included. *)
Theorem bare_answer_is_parsed_whole (raw : jsstring) :
  no_backtick raw = true -> jsonContent raw = raw.
Proof.
  intros Hb. unfold jsonContent, jsonMatch.
  rewrite (regex_match_no_backtick fence_json raw Hb)
    by (exists (js "``json"); reflexivity).
  rewrite (regex_match_no_backtick fence raw Hb)
    by (exists (js "``"); reflexivity).
  reflexivity.
Qed.

Lemma bare_answer_is_parsed_whole_witness :
  jsonContent (js "  [1, 2]  ") = js "  [1, 2]  ".
Proof.
  exact (bare_answer_is_parsed_whole (js "  [1, 2]  ") eq_refl).
Defined.

End BareAnswerLaws.
